(** * SafeHttpClient: the shared HTTP client of the platform integrations

    A shallow embedding of [SafeHttpClient] (core HTTP client: URL
    building and validation, auth headers, rate limiter, retry loop) and
    of the part of the platform it runs on (the [URL] class, [fetch],
    timers and the clock), followed by the properties of the client.

    Conventions.
    - A JavaScript string is represented by the bytes of its UTF-8
      encoding ([string] of Rocq); the model is exact on well-formed text.
    - A JavaScript [number] holding a count or a time in milliseconds is
      a [Z]: the whole numbers, which is what the clock and the
      configurations of the repository hold; a property that a fraction
      would break is stated for whole numbers.
    - A [Record<string, string>] read through spread and lookup is a
      [gmap string string]; one read through [Object.entries] is the list
      of its entries, in the order of the object. *)

From Stdlib Require Import ZArith NArith Ascii String List Lia DecimalString.
From stdpp Require Import base option gmap strings list.

Local Set Warnings "-register-all".

(** ** Bytes and character classes *)

Module Chars.

Definition code (c : ascii) : N := N_of_ascii c.

Definition between (lo hi : N) (c : ascii) : bool :=
  ((lo <=? code c) && (code c <=? hi))%N.

Definition is_digit (c : ascii) : bool := between 48 57 c.
Definition is_upper (c : ascii) : bool := between 65 90 c.
Definition is_lower (c : ascii) : bool := between 97 122 c.
Definition is_alpha (c : ascii) : bool := is_upper c || is_lower c.
Definition is_alnum (c : ascii) : bool := is_alpha c || is_digit c.
Definition is_hex (c : ascii) : bool :=
  is_digit c || between 65 70 c || between 97 102 c.
Definition is_octal (c : ascii) : bool := between 48 55 c.

Definition one_of (cs : string) (c : ascii) : bool :=
  existsb (Ascii.eqb c) (list_ascii_of_string cs).

Definition to_lower (c : ascii) : ascii :=
  if is_upper c then ascii_of_N (code c + 32) else c.

Definition hex_value (c : ascii) : N :=
  if is_digit c then code c - 48
  else if between 65 70 c then code c - 55
  else code c - 87.

Definition hex_upper (n : N) : ascii :=
  if (n <? 10)%N then ascii_of_N (48 + n) else ascii_of_N (55 + n).

Definition hex_lower (n : N) : ascii :=
  if (n <? 10)%N then ascii_of_N (48 + n) else ascii_of_N (87 + n).

(** A C0 control or space: stripped from both ends of a URL input. *)
Definition is_c0_or_space (c : ascii) : bool := (code c <=? 32)%N.

(** ASCII tab or newline: removed from a URL input wherever it stands. *)
Definition is_tab_or_newline (c : ascii) : bool :=
  (code c =? 9)%N || (code c =? 10)%N || (code c =? 13)%N.

End Chars.
Import Chars.

(** ** Strings *)

Module Str.

Fixpoint map (f : ascii -> ascii) (s : string) : string :=
  match s with
  | EmptyString => EmptyString
  | String c r => String (f c) (map f r)
  end.

Fixpoint filter (p : ascii -> bool) (s : string) : string :=
  match s with
  | EmptyString => EmptyString
  | String c r => if p c then String c (filter p r) else filter p r
  end.

Fixpoint forallb (p : ascii -> bool) (s : string) : bool :=
  match s with
  | EmptyString => true
  | String c r => p c && forallb p r
  end.

Fixpoint existsb (p : ascii -> bool) (s : string) : bool :=
  match s with
  | EmptyString => false
  | String c r => p c || existsb p r
  end.

Definition is_empty (s : string) : bool :=
  match s with EmptyString => true | _ => false end.

(** [break stop s]: the longest prefix of [s] free of [stop] characters,
    and the rest of [s], which is empty or starts with a [stop]
    character. *)
Fixpoint break (stop : ascii -> bool) (s : string) : string * string :=
  match s with
  | EmptyString => (EmptyString, EmptyString)
  | String c r =>
      if stop c then (EmptyString, s)
      else let '(a, b) := break stop r in (String c a, b)
  end.

(** [split sep s]: the pieces of [s] between the occurrences of [sep];
    never the empty list. *)
Fixpoint split (sep : ascii) (s : string) : list string :=
  match s with
  | EmptyString => [EmptyString]
  | String c r =>
      if Ascii.eqb c sep then EmptyString :: split sep r
      else match split sep r with
           | p :: ps => String c p :: ps
           | [] => [String c EmptyString]
           end
  end.

Fixpoint drop_while (p : ascii -> bool) (s : string) : string :=
  match s with
  | EmptyString => EmptyString
  | String c r => if p c then drop_while p r else s
  end.

(** Drops the longest suffix all of whose characters satisfy [p]. *)
Fixpoint drop_while_end (p : ascii -> bool) (s : string) : string :=
  match s with
  | EmptyString => EmptyString
  | String c r =>
      let r' := drop_while_end p r in
      if p c && is_empty r' then EmptyString else String c r'
  end.

Definition starts_with (p s : string) : bool := String.prefix p s.

Fixpoint drop (n : nat) (s : string) : string :=
  match n, s with
  | S n', String _ r => drop n' r
  | _, _ => s
  end.

Fixpoint concat_map (f : ascii -> string) (s : string) : string :=
  match s with
  | EmptyString => EmptyString
  | String c r => f c +:+ concat_map f r
  end.

Fixpoint join (sep : string) (l : list string) : string :=
  match l with
  | [] => EmptyString
  | [x] => x
  | x :: r => x +:+ sep +:+ join sep r
  end.

Definition lower (s : string) : string := map to_lower s.

Definition of_N (n : N) : string := NilZero.string_of_uint (N.to_uint n).

Definition is_empty_list {A} (l : list A) : bool :=
  match l with [] => true | _ => false end.

End Str.

(** ** Percent-encoding (URL Standard, section 1.3) *)

Module Percent.

Definition encode_byte (c : ascii) : string :=
  String "%" (String (hex_upper (code c / 16)) (String (hex_upper (code c mod 16)) "")).

Definition decode_pair (a b : ascii) : ascii :=
  ascii_of_N (16 * hex_value a + hex_value b).

(** Percent-decode: [%XY] with two hexadecimal digits becomes one byte,
    anything else stands for itself. *)
Fixpoint decode (s : string) : string :=
  match s with
  | EmptyString => EmptyString
  | String c r =>
      match r with
      | String a (String b r2) =>
          if Ascii.eqb c "%" && is_hex a && is_hex b
          then String (decode_pair a b) (decode r2)
          else String c (decode r)
      | _ => String c (decode r)
      end
  end.

(** The percent-encode sets, as predicates on bytes. *)
Definition c0_control_set (c : ascii) : bool :=
  (code c <=? 31)%N || (126 <? code c)%N.
Definition is_dquote (c : ascii) : bool := (code c =? 34)%N.
Definition fragment_set (c : ascii) : bool :=
  c0_control_set c || is_dquote c || one_of " <>`" c.
Definition query_set (c : ascii) : bool :=
  c0_control_set c || is_dquote c || one_of " #<>" c.
Definition special_query_set (c : ascii) : bool :=
  query_set c || one_of "'" c.
Definition path_set (c : ascii) : bool :=
  query_set c || one_of "?^`{}" c.
Definition userinfo_set (c : ascii) : bool :=
  path_set c || one_of "/:;=@[\]|" c.
(** application/x-www-form-urlencoded: everything but ASCII alphanumerics
    and [*], [-], [.], [_]. *)
Definition urlencoded_set (c : ascii) : bool :=
  negb (is_alnum c || one_of "*-._" c).

Definition encode (set : ascii -> bool) (s : string) : string :=
  Str.concat_map (fun c => if set c then encode_byte c else String c "") s.

End Percent.

(** ** application/x-www-form-urlencoded (URL Standard, section 5):
    the format of a URL's query as seen through [searchParams] *)

Module UrlEncoded.

Definition serialize_byte (c : ascii) : string :=
  if Ascii.eqb c " " then "+"
  else if Percent.urlencoded_set c then Percent.encode_byte c
  else String c "".

Definition serialize_string (s : string) : string :=
  Str.concat_map serialize_byte s.

Definition serialize_pair (kv : string * string) : string :=
  serialize_string kv.1 +:+ "=" +:+ serialize_string kv.2.

Definition serialize (l : list (string * string)) : string :=
  Str.join "&" (List.map serialize_pair l).

Definition plus_to_space (c : ascii) : ascii :=
  if Ascii.eqb c "+" then " "%char else c.

Definition parse_string (s : string) : string :=
  Percent.decode (Str.map plus_to_space s).

Definition parse_pair (s : string) : string * string :=
  let '(k, r) := Str.break (Ascii.eqb "=") s in
  (parse_string k,
   parse_string (match r with String _ v => v | EmptyString => EmptyString end)).

Definition parse (s : string) : list (string * string) :=
  List.map parse_pair
    (List.filter (fun p => negb (Str.is_empty p)) (Str.split "&" s)).

End UrlEncoded.


(** ** Hosts (URL Standard, section 3) *)

Module Host.

Inductive t :=
  | Domain (d : string)
  | IPv4 (address : N)
  | IPv6 (pieces : list N)
  | Opaque (h : string).

(** Forbidden host code points, and forbidden domain code points. *)
Definition forbidden_host (c : ascii) : bool :=
  (code c =? 0)%N || is_tab_or_newline c || one_of " #/:<>?@[\]^|" c.
Definition forbidden_domain (c : ascii) : bool :=
  forbidden_host c || (code c <=? 31)%N || one_of "%" c || (code c =? 127)%N.

(** *** IPv4 *)

Fixpoint number_in (radix : N) (acc : N) (s : string) : N :=
  match s with
  | EmptyString => acc
  | String c r => number_in radix (radix * acc + hex_value c)%N r
  end.

(** The IPv4 number parser: decimal, [0x] hexadecimal, or [0] octal. *)
Definition ipv4_number (s : string) : option N :=
  match s with
  | EmptyString => None
  | String "0" (String x r) =>
      if one_of "xX" x
      then (if Str.forallb is_hex r then Some (number_in 16 0 r) else None)
      else (if Str.forallb is_octal (String x r)
            then Some (number_in 8 0 (String x r)) else None)
  | _ => if Str.forallb is_digit s then Some (number_in 10 0 s) else None
  end.

(** Drops one trailing empty piece when other pieces stand before it. *)
Definition drop_last_empty (parts : list string) : list string :=
  match rev parts with
  | EmptyString :: (_ :: _) as front => rev front
  | _ => parts
  end.

Definition ends_in_number (s : string) : bool :=
  match rev (Str.split "." s) with
  | [EmptyString] => false
  | EmptyString :: l :: _ | l :: _ =>
      (negb (Str.is_empty l) && Str.forallb is_digit l)
      || bool_decide (is_Some (ipv4_number l))
  | [] => false
  end.

Definition ipv4_parse (s : string) : option N :=
  let parts := drop_last_empty (Str.split "." s) in
  if (4 <? length parts)%nat then None
  else
    ns ← mapM ipv4_number parts;
    match rev ns with
    | [] => None
    | last :: front =>
        if (256 ^ (5 - N.of_nat (length ns)) <=? last)%N then None
        else
          (* the leading parts are weighted from the first byte down *)
          hi ← (fix go (l : list N) (i : N) : option N :=
                  match l with
                  | [] => Some 0%N
                  | n :: r =>
                      if (255 <? n)%N then None
                      else (fun v => n * 256 ^ (3 - i) + v)%N <$> go r (i + 1)%N
                  end) (rev front) 0%N;
          Some (hi + last)%N
    end.

Definition ipv4_serialize (a : N) : string :=
  Str.join "."
    (List.map (fun i => Str.of_N ((a / 256 ^ i) mod 256)%N) [3; 2; 1; 0]%N).

(** *** IPv6 *)

Definition hex_piece (s : string) : option N :=
  if negb (Str.is_empty s) && (String.length s <=? 4)%nat && Str.forallb is_hex s
  then Some (number_in 16 0 s) else None.

(** A part of the dotted-decimal tail of an IPv6 address: decimal, at
    most 255, no leading zero. *)
Definition dotted_part (s : string) : option N :=
  match s with
  | EmptyString => None
  | String "0" (String _ _) => None
  | _ => if Str.forallb is_digit s && (number_in 10 0 s <=? 255)%N
         then Some (number_in 10 0 s) else None
  end.

Definition dotted_tail (s : string) : option (list N) :=
  ns ← mapM dotted_part (Str.split "." s);
  match ns with
  | [a; b; c; d] => Some [a * 256 + b; c * 256 + d]%N
  | _ => None
  end.

(** The pieces written between the colons; [None] in the result marks
    the place of the [::]. *)
Fixpoint ipv6_tokens (ts : list string) : option (list (option N)) :=
  match ts with
  | [] => Some []
  | [t] =>
      if Str.is_empty t then Some [None]
      else if Str.existsb (Ascii.eqb ".") t
      then List.map Some <$> dotted_tail t
      else (fun n => [Some n]) <$> hex_piece t
  | t :: r =>
      if Str.is_empty t then cons None <$> ipv6_tokens r
      else n ← hex_piece t; cons (Some n) <$> ipv6_tokens r
  end.

(** A leading or trailing [::] shows as two empty pieces: one is dropped,
    the other marks the compression. A single colon at either end is an
    error. *)
Definition trim_colons (ts : list string) : option (list string) :=
  match ts with
  | EmptyString :: EmptyString :: (_ :: _) as r => Some (EmptyString :: r)
  | EmptyString :: _ => None
  | _ => Some ts
  end.

Definition ipv6_expand (ps : list (option N)) : option (list N) :=
  let given := omap id ps in
  match List.filter (fun p => bool_decide (p = None)) ps with
  | [] => if (length given =? 8)%nat then Some given else None
  | [_] =>
      if (length given <=? 7)%nat
      then Some (List.concat
                   (List.map (fun p => match p with
                                       | Some n => [n]
                                       | None => repeat 0%N (8 - length given)
                                       end) ps))
      else None
  | _ => None
  end.

Definition ipv6_parse (s : string) : option (list N) :=
  if String.eqb s "::" then Some (repeat 0%N 8)
  else
    ts ← trim_colons (Str.split ":" s);
    ts ← @rev string <$> trim_colons (rev ts);
    ps ← ipv6_tokens ts;
    ipv6_expand ps.

Fixpoint hex_digits (fuel : nat) (n : N) (acc : string) : string :=
  match fuel with
  | O => acc
  | S f =>
      let acc := String (hex_lower (n mod 16)) acc in
      if (n / 16 =? 0)%N then acc else hex_digits f (n / 16)%N acc
  end.

Definition hex_of_piece (n : N) : string := hex_digits 4 n "".

Fixpoint zeros_prefix (l : list N) : nat :=
  match l with
  | 0%N :: r => S (zeros_prefix r)
  | _ => O
  end.

(** The start and length of the first longest run of zero pieces. *)
Fixpoint longest_zeros (l : list N) (i : nat) (best : nat * nat) : nat * nat :=
  match l with
  | [] => best
  | _ :: r =>
      let n := zeros_prefix l in
      longest_zeros r (S i) (if (best.2 <? n)%nat then (i, n) else best)
  end.

Fixpoint ipv6_pieces (l : list N) (i : nat) (run : nat * nat) : string :=
  match l with
  | [] => EmptyString
  | n :: r =>
      if (2 <=? run.2)%nat && (run.1 <=? i)%nat && (i <? run.1 + run.2)%nat
      then (if (i =? run.1)%nat then (if (i =? 0)%nat then "::" else ":") else "")
           +:+ ipv6_pieces r (S i) run
      else hex_of_piece n +:+ (if Str.is_empty_list r then "" else ":")
           +:+ ipv6_pieces r (S i) run
  end.

Definition ipv6_serialize (l : list N) : string :=
  ipv6_pieces l 0 (longest_zeros l 0 (0, 0)%nat).

End Host.

(** ** The platform's [URL] class (URL Standard, sections 4 and 6)

    The basic URL parser, written as functions over the input instead of
    a state machine over a pointer, then the serializer and the getters
    the client reads ([protocol], [hostname], [origin], [searchParams]).
    The model follows the standard state by state (scheme, authority,
    host, port, path, query, fragment, and the relative states against a
    base) with these limits, where it answers failure: the [file] scheme,
    and domains with bytes outside ASCII once percent-decoded. For an
    ASCII domain the IDNA processing of the standard is taken to be
    lowercasing (punycode labels are not checked), and [blob:] URLs have
    the opaque origin. *)

Module URL.

Inductive Path :=
  | OpaquePath (p : string)
  | Segments (l : list string).

Record t := mk {
  scheme : string;
  username : string;
  password : string;
  host : option Host.t;
  port : option N;
  path : Path;
  query : option string;
  fragment : option string;
  (** the list of the [URLSearchParams] object tied to the URL *)
  searchParams : list (string * string)
}.

Definition is_special (scheme : string) : bool :=
  bool_decide (scheme ∈ ["ftp"; "http"; "https"; "ws"; "wss"]).

Definition default_port (scheme : string) : option N :=
  if String.eqb scheme "ftp" then Some 21%N
  else if String.eqb scheme "http" || String.eqb scheme "ws" then Some 80%N
  else if String.eqb scheme "https" || String.eqb scheme "wss" then Some 443%N
  else None.

(** *** Scheme *)

Fixpoint scheme_rest (s acc : string) : option (string * string) :=
  match s with
  | EmptyString => None
  | String c r =>
      if Ascii.eqb c ":" then Some (acc, r)
      else if is_alnum c || one_of "+-." c
      then scheme_rest r (acc +:+ String (to_lower c) "")
      else None
  end.

(** The scheme of an input that starts with one, and what follows its
    colon. *)
Definition split_scheme (s : string) : option (string * string) :=
  match s with
  | String c r => if is_alpha c then scheme_rest r (String (to_lower c) "") else None
  | EmptyString => None
  end.

(** *** Authority: credentials, host and port *)

Definition host_parse (special : bool) (s : string) : option Host.t :=
  match s with
  | String "[" r =>
      let '(inside, close) := Str.break (Ascii.eqb "]") r in
      if String.eqb close "]" then Host.IPv6 <$> Host.ipv6_parse inside else None
  | _ =>
      if negb special then
        if Str.existsb Host.forbidden_host s then None
        else Some (Host.Opaque (Percent.encode Percent.c0_control_set s))
      else
        let domain := Str.lower (Percent.decode s) in
        if Str.is_empty domain
           || Str.existsb (fun c => (127 <? code c)%N) domain
           || Str.existsb Host.forbidden_domain domain
        then None
        else if Host.ends_in_number domain
        then Host.IPv4 <$> Host.ipv4_parse domain
        else Some (Host.Domain domain)
  end.

(** The host, up to the first colon that stands outside brackets. *)
Fixpoint break_host (inside : bool) (s : string) : string * string :=
  match s with
  | EmptyString => (EmptyString, EmptyString)
  | String c r =>
      if Ascii.eqb c ":" && negb inside then (EmptyString, s)
      else
        let inside' :=
          if Ascii.eqb c "[" then true
          else if Ascii.eqb c "]" then false else inside in
        let '(a, b) := break_host inside' r in (String c a, b)
  end.

Definition port_parse (scheme digits : string) : option (option N) :=
  if negb (Str.forallb is_digit digits) then None
  else if Str.is_empty digits then Some None
  else
    let p := Host.number_in 10 0 digits in
    if (65535 <? p)%N then None
    else Some (if bool_decide (default_port scheme = Some p) then None else Some p).

Definition host_port_parse (scheme hostport : string)
  : option (Host.t * option N) :=
  let special := is_special scheme in
  let '(h, rest) := break_host false hostport in
  match rest with
  | String _ digits =>
      if Str.is_empty h then None
      else hst ← host_parse special h; p ← port_parse scheme digits; Some (hst, p)
  | EmptyString =>
      if special && Str.is_empty h then None
      else hst ← host_parse special h; Some (hst, None)
  end.

Definition credentials_parse (creds : string) : string * string :=
  let '(u, r) := Str.break (Ascii.eqb ":") creds in
  (Percent.encode Percent.userinfo_set u,
   Percent.encode Percent.userinfo_set
     (match r with String _ p => p | EmptyString => EmptyString end)).

Definition authority_parse (scheme auth : string)
  : option (string * string * Host.t * option N) :=
  match rev (Str.split "@" auth) with
  | [hostport] =>
      '(h, p) ← host_port_parse scheme hostport; Some ("", "", h, p)
  | hostport :: front =>
      if Str.is_empty hostport then None
      else
        let '(u, pw) := credentials_parse (Str.join "@" (rev front)) in
        '(h, p) ← host_port_parse scheme hostport; Some (u, pw, h, p)
  | [] => None
  end.

(** *** Path, query and fragment *)

Definition is_single_dot (s : string) : bool :=
  bool_decide (Str.lower s ∈ ["."; "%2e"]).
Definition is_double_dot (s : string) : bool :=
  bool_decide (Str.lower s ∈ [".."; ".%2e"; "%2e."; "%2e%2e"]).

(** What the path state does with its buffer when a segment ends; [slash]
    tells whether it ends on a slash. *)
Definition end_segment (buffer : string) (path : list string) (slash : bool)
  : list string :=
  if is_double_dot buffer
  then (if slash then removelast path else removelast path ++ [""])
  else if is_single_dot buffer
  then (if slash then path else path ++ [""])
  else path ++ [buffer].

Definition is_slash (special : bool) (c : ascii) : bool :=
  Ascii.eqb c "/" || (special && Ascii.eqb c "\").

(** The path state: returns the path and the rest of the input, which is
    empty or starts with [?] or [#]. *)
Fixpoint path_state (special : bool) (s buffer : string) (path : list string)
  : list string * string :=
  match s with
  | EmptyString => (end_segment buffer path false, EmptyString)
  | String c r =>
      if one_of "?#" c then (end_segment buffer path false, s)
      else if is_slash special c
      then path_state special r "" (end_segment buffer path true)
      else path_state special r
             (buffer +:+ Percent.encode Percent.path_set (String c "")) path
  end.

(** The query and fragment states, on an input that is empty or starts
    with [?] or [#]. *)
Definition tail_parse (special : bool) (s : string)
  : option string * option string :=
  let qset := if special then Percent.special_query_set else Percent.query_set in
  let frag f := Some (Percent.encode Percent.fragment_set f) in
  match s with
  | String "?" r =>
      let '(q, f) := Str.break (Ascii.eqb "#") r in
      (Some (Percent.encode qset q),
       match f with String _ f' => frag f' | EmptyString => None end)
  | String "#" f' => (None, frag f')
  | _ => (None, None)
  end.

Definition params_of (q : option string) : list (string * string) :=
  UrlEncoded.parse (default "" q).

(** *** The basic URL parser *)

(** From the authority on: what follows the slashes of a URL that has an
    authority. *)
Definition from_authority (scheme s : string) : option t :=
  let special := is_special scheme in
  let '(auth, rest) := Str.break (fun c => one_of "?#" c || is_slash special c) s in
  '(u, pw, h, p) ← authority_parse scheme auth;
  let '(segs, tail) :=
    match rest with
    | String c r =>
        if is_slash special c then path_state special r "" []
        else if special then path_state special rest "" []
        else ([], rest)
    | EmptyString => if special then path_state special "" "" [] else ([], "")
    end in
  let '(q, f) := tail_parse special tail in
  Some (mk scheme u pw (Some h) p (Segments segs) q f (params_of q)).

(** The relative state and the relative slash state: an input without a
    scheme, against a base whose path is a list of segments. *)
Definition relative (base : t) (base_path : list string) (s : string) : option t :=
  let special := is_special (scheme base) in
  let with_path segs tail :=
    let '(q, f) := tail_parse special tail in
    Some (mk (scheme base) (username base) (password base) (host base)
            (port base) (Segments segs) q f (params_of q)) in
  match s with
  | EmptyString =>
      Some (mk (scheme base) (username base) (password base) (host base)
              (port base) (path base) (query base) None (params_of (query base)))
  | String c r =>
      if is_slash special c then
        match r with
        | String c2 r2 =>
            if special && is_slash special c2
            then from_authority (scheme base) (Str.drop_while (is_slash special) r2)
            else if Ascii.eqb c2 "/" then from_authority (scheme base) r2
            else let '(segs, tail) := path_state special r "" [] in with_path segs tail
        | EmptyString =>
            let '(segs, tail) := path_state special r "" [] in with_path segs tail
        end
      else if Ascii.eqb c "?" then with_path base_path s
      else if Ascii.eqb c "#" then
        Some (mk (scheme base) (username base) (password base) (host base)
                (port base) (path base) (query base)
                (snd (tail_parse special s)) (params_of (query base)))
      else
        let '(segs, tail) := path_state special s "" (removelast base_path) in
        with_path segs tail
  end.

(** An input that starts with a scheme. *)
Definition absolute (scheme rest : string) (base : option t) : option t :=
  if String.eqb scheme "file" then None
  else if is_special scheme then
    match base with
    | Some b =>
        if String.eqb (URL.scheme b) scheme && negb (Str.starts_with "//" rest)
        then match path b with
             | Segments bp => relative b bp rest
             | OpaquePath _ => None
             end
        else from_authority scheme (Str.drop_while (is_slash true) rest)
    | None => from_authority scheme (Str.drop_while (is_slash true) rest)
    end
  else if Str.starts_with "//" rest then from_authority scheme (Str.drop 2 rest)
  else if Str.starts_with "/" rest then
    let '(segs, tail) := path_state false (Str.drop 1 rest) "" [] in
    let '(q, f) := tail_parse false tail in
    Some (mk scheme "" "" None None (Segments segs) q f (params_of q))
  else
    let '(p, tail) := Str.break (one_of "?#") rest in
    let '(q, f) := tail_parse false tail in
    Some (mk scheme "" "" None None
            (OpaquePath (Percent.encode Percent.c0_control_set p)) q f
            (params_of q)).

(** The input, without the C0 controls and spaces at its ends and
    without any tab or newline. *)
Definition trim (input : string) : string :=
  Str.filter (fun c => negb (is_tab_or_newline c))
    (Str.drop_while_end is_c0_or_space (Str.drop_while is_c0_or_space input)).

Definition basic_parse (input : string) (base : option t) : option t :=
  let s := trim input in
  match split_scheme s with
  | Some (scheme, rest) => absolute scheme rest base
  | None =>
      match base with
      | None => None
      | Some b =>
          match path b with
          | Segments bp =>
              if String.eqb (scheme b) "file" then None else relative b bp s
          | OpaquePath _ =>
              match s with
              | String "#" _ =>
                  Some (mk (scheme b) (username b) (password b) (host b)
                          (port b) (path b) (query b)
                          (snd (tail_parse false s)) (params_of (query b)))
              | _ => None
              end
          end
      end
  end.

(** [new URL(input)] and [new URL(input, base)]; [None] stands for the
    [TypeError] the constructor throws. *)
Definition new (input : string) (base : option string) : option t :=
  match base with
  | None => basic_parse input None
  | Some b => ub ← basic_parse b None; basic_parse input (Some ub)
  end.

(** *** Serializer and getters *)

Definition host_serialize (h : Host.t) : string :=
  match h with
  | Host.Domain d => d
  | Host.IPv4 a => Host.ipv4_serialize a
  | Host.IPv6 ps => "[" +:+ Host.ipv6_serialize ps +:+ "]"
  | Host.Opaque o => o
  end.

Definition port_serialize (p : option N) : string :=
  match p with Some n => ":" +:+ Str.of_N n | None => "" end.

Definition path_serialize (p : Path) : string :=
  match p with
  | OpaquePath o => o
  | Segments l => Str.join "" (List.map (fun seg => "/" +:+ seg) l)
  end.

Definition credentials_serialize (u : t) : string :=
  if Str.is_empty (username u) && Str.is_empty (password u) then ""
  else username u
       +:+ (if Str.is_empty (password u) then "" else ":" +:+ password u)
       +:+ "@".

Definition toString (u : t) : string :=
  scheme u +:+ ":"
  +:+ match host u with
      | Some h =>
          "//" +:+ credentials_serialize u +:+ host_serialize h
          +:+ port_serialize (port u)
      | None =>
          match path u with
          | Segments (EmptyString :: _ :: _) => "/."
          | _ => ""
          end
      end
  +:+ path_serialize (path u)
  +:+ match query u with Some q => "?" +:+ q | None => "" end
  +:+ match fragment u with Some f => "#" +:+ f | None => "" end.

Definition protocol (u : t) : string := scheme u +:+ ":".

Definition hostname (u : t) : string :=
  match host u with Some h => host_serialize h | None => "" end.

(** The serialized origin: a tuple origin for the special schemes, and
    the opaque origin, [null], for every other scheme of the model. *)
Definition origin (u : t) : string :=
  if is_special (scheme u)
  then scheme u +:+ "://" +:+ hostname u +:+ port_serialize (port u)
  else "null".

(** [url.searchParams.append(name, value)]: the pair goes to the end of
    the list, and the URL's query becomes the serialization of the list. *)
Definition searchParams_append (u : t) (name value : string) : t :=
  let l := searchParams u ++ [(name, value)] in
  let q := UrlEncoded.serialize l in
  mk (scheme u) (username u) (password u) (host u) (port u) (path u)
     (if Str.is_empty q then None else Some q) (fragment u) l.

End URL.

(** ** JavaScript values the client handles *)

(** A value that [JSON] can carry: a request body, a decoded response. *)
Inductive Json :=
  | JNull
  | JBool (b : bool)
  | JNumber (n : Z)
  | JString (s : string)
  | JArray (items : list Json)
  | JObject (fields : list (string * Json)).

(** A thrown value: an [Error] object with its [name] and [message]. *)
Record JsError := mkError { error_name : string; message : string }.

(** [new Error(message)] *)
Definition Error (msg : string) : JsError := mkError "Error" msg.
(** [new TypeError(message)] *)
Definition TypeError (msg : string) : JsError := mkError "TypeError" msg.
(** [new RangeError(message)] *)
Definition RangeError (msg : string) : JsError := mkError "RangeError" msg.

(** Truthiness, as [if (x)], [x ? a : b] and [x || y] test it. *)
Class Truthy (A : Type) := truthy : A -> bool.

#[global] Instance truthy_string : Truthy string :=
  fun s => negb (Str.is_empty s).
#[global] Instance truthy_Z : Truthy Z := fun n => negb (n =? 0)%Z.
#[global] Instance truthy_Json : Truthy Json := fun j =>
  match j with
  | JNull => false
  | JBool b => b
  | JNumber n => truthy n
  | JString s => truthy s
  | JArray _ | JObject _ => true
  end.
(** An optional property: [undefined] is falsy. *)
#[global] Instance truthy_option `{Truthy A} : Truthy (option A) := fun o =>
  match o with Some a => truthy a | None => false end.

(** [x || y] where [x] may be [undefined]. *)
Definition or_else `{Truthy A} (x : option A) (y : A) : A :=
  match x with Some a => if truthy a then a else y | None => y end.

(** [Object.fromEntries]: the properties are assigned in order. *)
Definition fromEntries (l : list (string * string)) : gmap string string :=
  fold_left (fun m kv => <[kv.1 := kv.2]> m) l ∅.

(** The object spread [{...a, ...b}]: the properties of [b] win. *)
Definition spread (a b : gmap string string) : gmap string string := b ∪ a.

(** ** core/config.ts *)

Record PlatformCredentials := {
  apiKey : option string;
  apiSecret : option string;
  accessToken : option string;
  refreshToken : option string;
  webhookSecret : option string
}.

(** [timeout], [retryAttempts] and [rateLimitPerMinute] are numbers; they
    are whole numbers here, as in every configuration that the clients of
    the repository make. *)
Record PlatformConfig := {
  name : string;
  enabled : bool;
  baseUrl : string;
  version : string;
  credentials : PlatformCredentials;
  timeout : Z;
  retryAttempts : Z;
  rateLimitPerMinute : Z
}.

(** [process.env] is a map from names to strings. (The names of
    [Object.prototype], such as [constructor], answer as well, with a
    value that is no string; none of the names read here is one of them:
    [NODE_ENV], [DOCKER_HOST], the names of the registry, and names that
    end in [_ENABLED], [_API_KEY], [_API_SECRET], [_ACCESS_TOKEN],
    [_REFRESH_TOKEN] or [_WEBHOOK_SECRET].) *)
Definition NODE_ENV (env : gmap string string) : option string :=
  env !! "NODE_ENV".

(** The fields of [Partial<PlatformConfig>] that [createPlatformConfig]
    reads. *)
Record ConfigOptions := {
  opt_version : option string;
  opt_timeout : option Z;
  opt_retryAttempts : option Z;
  opt_rateLimitPerMinute : option Z
}.

(** [getEnvVar(key)], as [createPlatformConfig] calls it: [required] is
    left at its default, [false], so the call never throws. *)
Definition getEnvVar (env : gmap string string) (key : string) : option string :=
  env !! key.

Definition createPlatformConfig (env : gmap string string)
    (name baseUrl envPrefix : string) (options : ConfigOptions) : PlatformConfig :=
  {| name := name;
     enabled := bool_decide (getEnvVar env (envPrefix +:+ "_ENABLED") = Some "true");
     baseUrl := baseUrl;
     version := or_else (opt_version options) "v1";
     credentials :=
       {| apiKey := getEnvVar env (envPrefix +:+ "_API_KEY");
          apiSecret := getEnvVar env (envPrefix +:+ "_API_SECRET");
          accessToken := getEnvVar env (envPrefix +:+ "_ACCESS_TOKEN");
          refreshToken := getEnvVar env (envPrefix +:+ "_REFRESH_TOKEN");
          webhookSecret := getEnvVar env (envPrefix +:+ "_WEBHOOK_SECRET") |};
     timeout := or_else (opt_timeout options) 30000%Z;
     retryAttempts := or_else (opt_retryAttempts options) 3%Z;
     rateLimitPerMinute := or_else (opt_rateLimitPerMinute options) 60%Z |}.

(** ** The HTTP client: data *)

Inductive Method := GET | POST | PUT | PATCH | DELETE.

Module HttpRequestOptions.
Record t := mk {
  method : Method;
  path : string;
  headers : option (gmap string string);
  body : option Json;
  (** the entries of the query object, in its order *)
  query : option (list (string * string));
  timeout : option Z
}.
End HttpRequestOptions.

Module HttpResponse.
Record t := mk {
  status : Z;
  statusText : string;
  headers : gmap string string;
  data : Json;
  requestId : option string
}.
End HttpResponse.

Record RateLimiter := {
  remaining : Z;
  limit : Z;
  (** [resetAt.getTime()], in milliseconds *)
  resetAt : Z
}.

(** ** The platform the client runs on: clock, timers and [fetch] *)

(** What the client passes to [fetch] beside the URL. *)
Record RequestInit := {
  init_method : Method;
  init_headers : gmap string string;
  (** the value whose [JSON.stringify] text is sent, if any *)
  init_body : option Json;
  (** the delay of [AbortSignal.timeout] *)
  init_timeout : Z
}.

(** The response [fetch] resolves with; [json] is what awaiting
    [response.json()] gives: the decoded body, or the error it rejects
    with when the body is empty or is not JSON text. *)
Record FetchResponse := {
  resp_status : Z;
  resp_statusText : string;
  (** [response.headers.entries()]: lower-case names, each once *)
  resp_headers : list (string * string);
  json : JsError + Json
}.

(** One network exchange: [fetch] rejects (network failure, or abort by
    the timeout signal), or resolves with a response whatever its status
    is; [elapsed] is the time it takes, in milliseconds. *)
Inductive FetchResult :=
  | Rejected (e : JsError)
  | Resolved (r : FetchResponse).

Record Exchange := { elapsed : Z; result : FetchResult }.

(** The network answers the attempts of one request, by their number. *)
Definition Network := nat -> Exchange.

(** What an observer of the process sees. *)
Inductive Event :=
  | Sleep (ms : Z)
  | Fetch (url : string) (init : RequestInit).

(** The state a call runs in: the clock ([Date.now()]), the client's
    [rateLimiter] field, and the events so far (oldest first). *)
Record State := {
  now : Z;
  rateLimiter : RateLimiter;
  trace : list Event
}.

(** [new SafeHttpClient(config)], run when the clock shows [now]. *)
Definition constructor (config : PlatformConfig) (now : Z) : State :=
  {| now := now;
     rateLimiter :=
       {| remaining := rateLimitPerMinute config;
          limit := rateLimitPerMinute config;
          resetAt := now + 60000 |};
     trace := [] |}.

(** *** Computations that read and write the state and may throw *)

Definition M (A : Type) : Type := State -> (JsError + A) * State.

Definition ret {A} (a : A) : M A := fun s => (inr a, s).
Definition throw {A} (e : JsError) : M A := fun s => (inl e, s).
Definition bind {A B} (m : M A) (k : A -> M B) : M B := fun s =>
  match m s with
  | (inr a, s') => k a s'
  | (inl e, s') => (inl e, s')
  end.
(** [try { m } catch (error) { h error }] *)
Definition try_catch {A} (m : M A) (h : JsError -> M A) : M A := fun s =>
  match m s with
  | (inr a, s') => (inr a, s')
  | (inl e, s') => h e s'
  end.

Declare Scope js_scope.
Delimit Scope js_scope with js.
Notation "'let!' x ':=' m 'in' k" := (bind m (fun x => k))
  (at level 10, x name, m at level 100, k at level 200, only parsing) : js_scope.
Notation "m ';;' k" := (bind m (fun _ => k))
  (at level 100, k at level 200, right associativity, only parsing) : js_scope.

Definition Date_now : M Z := fun s => (inr (now s), s).

Definition get_rateLimiter : M RateLimiter := fun s => (inr (rateLimiter s), s).
Definition set_rateLimiter (r : RateLimiter) : M unit := fun s =>
  (inr tt, {| now := now s; rateLimiter := r; trace := trace s |}).

(** [await new Promise(resolve => setTimeout(resolve, ms))]: the call
    resumes [ms] milliseconds later (at once when [ms] is not positive). *)
Definition sleep (ms : Z) : M unit := fun s =>
  (inr tt, {| now := now s + Z.max 0 ms;
              rateLimiter := rateLimiter s;
              trace := trace s ++ [Sleep ms] |}).

(** *** [AbortSignal.timeout] *)

(** The delays that [AbortSignal.timeout] accepts: the integers from 0 to
    2^32 - 1. *)
Definition valid_delay (delay : Z) : bool :=
  (0 <=? delay)%Z && (delay <=? 4294967295)%Z.

(** An underscore between the groups of three digits, counted from the
    right; the digits come last first. *)
Fixpoint separate (rev_digits : list ascii) : list ascii :=
  match rev_digits with
  | a :: b :: c :: rest =>
      match rest with
      | [] => [a; b; c]
      | _ :: _ => a :: b :: c :: "_"%char :: separate rest
      end
  | _ => rev_digits
  end.

(** An integer as the message of the error shows it: in decimal, with
    separators when it is beyond 2^32 (JavaScript writes a number out in
    full below 10^21). *)
Definition received (n : Z) : string :=
  let digits := Str.of_N (Z.abs_N n) in
  (if (n <? 0)%Z then "-" else "")
  +:+ (if (2 ^ 32 <? Z.abs n)%Z
       then string_of_list_ascii
              (rev (separate (rev (list_ascii_of_string digits))))
       else digits).

(** The error [AbortSignal.timeout(delay)] throws for a delay it does not
    accept, with the message Node gives it. *)
Definition delay_out_of_range (delay : Z) : JsError :=
  let quote := String (ascii_of_N 34) EmptyString in
  RangeError ("The value of " +:+ quote +:+ "delay" +:+ quote
              +:+ " is out of range. It must be >= 0 && <= 4294967295. Received "
              +:+ received delay).

(** [AbortSignal.timeout(delay)]: it throws for a delay out of range.
    The signal it returns aborts the [fetch] it is passed to once the
    delay is over; the network shows that as a rejection. *)
Definition AbortSignal_timeout (delay : Z) : M unit :=
  if valid_delay delay then ret tt else throw (delay_out_of_range delay).

(** [await fetch(url, init)], answered by the exchange [x]. *)
Definition fetch (x : Exchange) (url : string) (init : RequestInit)
  : M FetchResponse := fun s =>
  let s' := {| now := now s + Z.max 0 (elapsed x);
               rateLimiter := rateLimiter s;
               trace := trace s ++ [Fetch url init] |} in
  match result x with
  | Rejected e => (inl e, s')
  | Resolved r => (inr r, s')
  end.

(** [await response.json()] *)
Definition response_json (r : FetchResponse) : M Json := fun s =>
  match json r with
  | inl e => (inl e, s)
  | inr d => (inr d, s)
  end.

(** [response.headers.get(name)] *)
Definition headers_get (r : FetchResponse) (name : string) : option string :=
  snd <$> List.find (fun kv => String.eqb kv.1 name) (resp_headers r).

(** ** core: the class [SafeHttpClient] *)

Section SafeHttpClient.

(** [process.env], [this.config], and the network the request meets. *)
Variable env : gmap string string.
Variable config : PlatformConfig.
Variable net : Network.

Definition production : bool :=
  bool_decide (NODE_ENV env = Some "production").

Definition blockedHosts : list string :=
  ["localhost"; "127.0.0.1"; "0.0.0.0"; "::1"].

(** Validates URL to prevent SSRF attacks *)
Definition validateUrl (url : string) : bool :=
  match URL.new url None with
  | Some parsed =>
      (* Only allow HTTPS in production *)
      if production && negb (String.eqb (URL.protocol parsed) "https:")
      then false
      (* Block internal/localhost URLs *)
      else if bool_decide (URL.hostname parsed ∈ blockedHosts)
      then negb production
      else true
  | None => false
  end.

(** The URL object that [buildUrl] serializes: [new URL(path, baseUrl)]
    with every entry of [query] appended to its [searchParams]. *)
Definition buildUrl_object (path : string) (query : option (list (string * string)))
  : JsError + URL.t :=
  match URL.new path (Some (baseUrl config)) with
  | None => inl (TypeError "Invalid URL")
  | Some url =>
      inr (match query with
           | Some entries =>
               fold_left (fun u kv => URL.searchParams_append u kv.1 kv.2) entries url
           | None => url
           end)
  end.

(** Builds the full URL with query parameters *)
Definition buildUrl (path : string) (query : option (list (string * string)))
  : JsError + string :=
  match buildUrl_object path query with
  | inl e => inl e
  | inr url => inr (URL.toString url)
  end.

(** Gets authorization headers based on credentials *)
Definition getAuthHeaders : gmap string string :=
  if truthy (accessToken (credentials config))
  then {[ "Authorization" := "Bearer " +:+ default "" (accessToken (credentials config)) ]}
  else if truthy (apiKey (credentials config))
  then {[ "X-API-Key" := default "" (apiKey (credentials config)) ]}
  else ∅.

(** Checks rate limit and waits if necessary *)
Definition checkRateLimit : M unit :=
  (let! t := Date_now in
   let! rl := get_rateLimiter in
   (if (resetAt rl <? t)%Z
    then set_rateLimiter
           {| remaining := limit rl; limit := limit rl; resetAt := t + 60000 |}
    else ret tt);;
   let! rl := get_rateLimiter in
   (if (remaining rl <=? 0)%Z
    then
      let! t := Date_now in
      let waitTime := (resetAt rl - t)%Z in
      sleep waitTime;;
      set_rateLimiter
        {| remaining := limit rl; limit := limit rl; resetAt := resetAt rl |}
    else ret tt);;
   let! rl := get_rateLimiter in
   set_rateLimiter
     {| remaining := remaining rl - 1; limit := limit rl; resetAt := resetAt rl |})%js.

(** The headers of the outgoing request. *)
Definition requestHeaders (options : HttpRequestOptions.t) : gmap string string :=
  spread
    (spread
       {[ "Content-Type" := "application/json";
          "User-Agent" := "BlackRoad-CLI/" +:+ version config ]}
       getAuthHeaders)
    (default ∅ (HttpRequestOptions.headers options)).

Definition requestInit (options : HttpRequestOptions.t) : RequestInit :=
  {| init_method := HttpRequestOptions.method options;
     init_headers := requestHeaders options;
     init_body := if truthy (HttpRequestOptions.body options)
                  then HttpRequestOptions.body options else None;
     init_timeout := or_else (HttpRequestOptions.timeout options) (timeout config) |}.

(** The object [request] returns for a response and its decoded body. *)
Definition envelope (response : FetchResponse) (data : Json) : HttpResponse.t :=
  HttpResponse.mk
    (resp_status response)
    (resp_statusText response)
    (fromEntries (resp_headers response))
    data
    (let id := headers_get response "x-request-id" in
     if truthy id then id else None).

(** The body of the [try] block of one attempt: the argument of
    [fetch] is built first, [AbortSignal.timeout] included ([JSON.stringify]
    does not throw on a value of [Json]), then [fetch] is called and the
    body of its response decoded. *)
Definition attempt_once (attempt : nat) (url : string)
    (options : HttpRequestOptions.t) : M HttpResponse.t :=
  (let init := requestInit options in
   AbortSignal_timeout (init_timeout init);;
   let! response := fetch (net attempt) url init in
   let! data := response_json response in
   ret (envelope response data))%js.

(** The [for] loop of [request], from the iteration that has [attempt]
    as counter and with [todo] iterations left before the loop guard
    [attempt < retryAttempts] fails; after the loop, the final [throw]. *)
Fixpoint retry_loop (todo attempt : nat) (lastError : option JsError)
    (url : string) (options : HttpRequestOptions.t) : M HttpResponse.t :=
  match todo with
  | O => throw (default (Error "Request failed after retries") lastError)
  | S todo' =>
      try_catch (attempt_once attempt url options)
        (fun error =>
           ((* Exponential backoff *)
            (if (Z.of_nat attempt <? retryAttempts config - 1)%Z
             then sleep (2 ^ Z.of_nat attempt * 1000)
             else ret tt);;
            retry_loop todo' (S attempt) (Some error) url options)%js)
  end.

(** Makes an HTTP request with retries *)
Definition request (options : HttpRequestOptions.t) : M HttpResponse.t :=
  match buildUrl (HttpRequestOptions.path options) (HttpRequestOptions.query options) with
  | inl e => throw e
  | inr url =>
      if negb (validateUrl url)
      then throw (Error ("Invalid or blocked URL: " +:+ url))
      else
        (checkRateLimit;;
         retry_loop (Z.to_nat (retryAttempts config)) 0 None url options)%js
  end.

End SafeHttpClient.

(** Convenience methods *)
Module Methods.
Section Methods.
Variable env : gmap string string.
Variable config : PlatformConfig.
Variable net : Network.

Definition get (path : string) (query : option (list (string * string))) :=
  request env config net (HttpRequestOptions.mk GET path None None query None).
Definition post (path : string) (body : option Json) :=
  request env config net (HttpRequestOptions.mk POST path None body None None).
Definition put (path : string) (body : option Json) :=
  request env config net (HttpRequestOptions.mk PUT path None body None None).
Definition patch (path : string) (body : option Json) :=
  request env config net (HttpRequestOptions.mk PATCH path None body None None).
Definition delete (path : string) :=
  request env config net (HttpRequestOptions.mk DELETE path None None None None).

End Methods.
End Methods.

(** ** Vocabulary of the properties *)

(** The clock moves on by [d] milliseconds between two calls. *)
Definition advance (d : Z) (s : State) : State :=
  {| now := now s + d; rateLimiter := rateLimiter s; trace := trace s |}.

(** The state once an exchange is over, and once a timer has fired. *)
Definition fetched (x : Exchange) (url : string) (init : RequestInit)
    (s : State) : State :=
  {| now := now s + Z.max 0 (elapsed x);
     rateLimiter := rateLimiter s;
     trace := trace s ++ [Fetch url init] |}.

Definition slept (ms : Z) (s : State) : State :=
  {| now := now s + Z.max 0 ms;
     rateLimiter := rateLimiter s;
     trace := trace s ++ [Sleep ms] |}.

(** The error an attempt ends with when it fails: the rejection of
    [fetch], or that of [response.json()]. *)
Definition attempt_error (x : Exchange) : option JsError :=
  match result x with
  | Rejected e => Some e
  | Resolved r => match json r with inl e => Some e | inr _ => None end
  end.

(** The response and decoded body of an attempt that succeeds. *)
Definition attempt_success (x : Exchange) : option (FetchResponse * Json) :=
  match result x with
  | Rejected _ => None
  | Resolved r => match json r with inl _ => None | inr d => Some (r, d) end
  end.

(** The state after the failed attempt [attempt] and its backoff. *)
Definition after_failure (config : PlatformConfig) (net : Network)
    (url : string) (init : RequestInit) (attempt : nat) (s : State) : State :=
  let s' := fetched (net attempt) url init s in
  if (Z.of_nat attempt <? retryAttempts config - 1)%Z
  then slept (2 ^ Z.of_nat attempt * 1000) s' else s'.


(** The state after the attempt [attempt] when [AbortSignal.timeout]
    refuses the delay: nothing is sent, the backoff runs. *)
Definition after_refusal (config : PlatformConfig) (attempt : nat) (s : State)
  : State :=
  if (Z.of_nat attempt <? retryAttempts config - 1)%Z
  then slept (2 ^ Z.of_nat attempt * 1000) s else s.

(** The state after [k] such attempts, [attempt], [attempt + 1], ... *)
Fixpoint after_refusals (config : PlatformConfig) (attempt k : nat) (s : State)
  : State :=
  match k with
  | O => s
  | S k' => after_refusals config (S attempt) k' (after_refusal config attempt s)
  end.

(** Observers of a trace: the number of network attempts, the delays of
    the timers in order, and the requests sent. *)
Definition fetch_count (t : list Event) : nat :=
  length (List.filter (fun ev => match ev with Fetch _ _ => true | _ => false end) t).

Definition sleeps (t : list Event) : list Z :=
  omap (fun ev => match ev with Sleep ms => Some ms | _ => None end) t.

Definition requests (t : list Event) : list (string * RequestInit) :=
  omap (fun ev => match ev with Fetch u i => Some (u, i) | _ => None end) t.

(** An event of a call on [url] with [init]: a timer, or [fetch] on
    them. *)
Definition sends (url : string) (init : RequestInit) (ev : Event) : Prop :=
  match ev with
  | Sleep _ => True
  | Fetch u i => u = url /\ i = init
  end.

(** The delays [2^i] seconds for [i = from, ..., from + n - 1]. *)
Definition backoffs (from n : nat) : list Z :=
  List.map (fun i => 2 ^ Z.of_nat i * 1000)%Z (seq from n).

(** The client is asked for one rate-limit check after each of the
    [gaps] of time, one after the other. *)
Definition checks (gaps : list Z) (s : State) : State :=
  fold_left (fun s d => (checkRateLimit (advance d s)).2) gaps s.

(** The rate limiter invariant. *)
Definition limiter_ok (rl : RateLimiter) : Prop :=
  (0 <= remaining rl <= limit rl)%Z.

(** A path that names a resource under the base: it starts with one
    slash, and holds no query, fragment, tab or newline. *)
Definition plain_path (p : string) : bool :=
  match p with
  | String "/" r =>
      negb (match r with String c _ => one_of "/\" c | EmptyString => false end)
      && negb (Str.existsb (fun c => one_of "?#" c || is_tab_or_newline c) r)
  | _ => false
  end.

(** ** Sample data: one client, three networks *)

Module Sample.

Definition production_env : gmap string string := {[ "NODE_ENV" := "production" ]}.
Definition development_env : gmap string string := ∅.

Definition credentials_both : PlatformCredentials :=
  {| apiKey := Some "k"; apiSecret := None; accessToken := Some "t";
     refreshToken := None; webhookSecret := None |}.

Definition github (limit : Z) : PlatformConfig :=
  {| name := "GitHub"; enabled := true; baseUrl := "https://api.github.com";
     version := "2022-11-28"; credentials := credentials_both;
     timeout := 30000; retryAttempts := 3; rateLimitPerMinute := limit |}.

Definition get_user : HttpRequestOptions.t :=
  HttpRequestOptions.mk GET "/user" None None None None.




(** Every attempt is answered [404 Not Found] with a JSON body. *)
Definition not_found : FetchResponse :=
  {| resp_status := 404; resp_statusText := "Not Found";
     resp_headers := [("content-type", "application/json")];
     json := inr (JObject [("message", JString "Not Found")]) |}.
Definition net_404 : Network := fun _ =>
  {| elapsed := 20; result := Resolved not_found |}.




(** A Docker daemon on the local host. *)
Definition docker : PlatformConfig :=
  {| name := "Docker"; enabled := true; baseUrl := "http://localhost:2375";
     version := "v1.43";
     credentials := {| apiKey := None; apiSecret := None; accessToken := None;
                       refreshToken := None; webhookSecret := None |};
     timeout := 60000; retryAttempts := 3; rateLimitPerMinute := 60 |}.
Definition get_info : HttpRequestOptions.t :=
  HttpRequestOptions.mk GET "/info" None None None None.


End Sample.

(** ** core/config.ts: the rest of the module *)

(** [keyof PlatformCredentials] *)
Inductive CredentialKey :=
  | KeyApiKey
  | KeyApiSecret
  | KeyAccessToken
  | KeyRefreshToken
  | KeyWebhookSecret.

(** The key as a string, as it is pushed on [missing]. *)
Definition key_name (k : CredentialKey) : string :=
  match k with
  | KeyApiKey => "apiKey"
  | KeyApiSecret => "apiSecret"
  | KeyAccessToken => "accessToken"
  | KeyRefreshToken => "refreshToken"
  | KeyWebhookSecret => "webhookSecret"
  end.

(** [config.credentials[key]] *)
Definition credential (c : PlatformCredentials) (k : CredentialKey) : option string :=
  match k with
  | KeyApiKey => apiKey c
  | KeyApiSecret => apiSecret c
  | KeyAccessToken => accessToken c
  | KeyRefreshToken => refreshToken c
  | KeyWebhookSecret => webhookSecret c
  end.

Module CredentialCheck.
Record t := mk { valid : bool; missing : list string }.
End CredentialCheck.

(** Validates that a configuration has required credentials *)
Definition validateCredentials (config : PlatformConfig)
    (required : list CredentialKey) : CredentialCheck.t :=
  let missing :=
    fold_left
      (fun missing key =>
         if negb (truthy (credential (credentials config) key))
         then missing ++ [key_name key] else missing)
      required [] in
  CredentialCheck.mk (length missing =? 0)%nat missing.

(** The object [sanitizeConfigForLogging] returns. *)
Module Sanitized.
Record credentials := mkCredentials {
  apiKey : option string;
  apiSecret : option string;
  accessToken : option string;
  refreshToken : option string;
  webhookSecret : option string
}.
Record t := mk {
  name : string;
  enabled : bool;
  baseUrl : string;
  version : string;
  timeout : Z;
  retryAttempts : Z;
  rateLimitPerMinute : Z;
  creds : credentials
}.
End Sanitized.

(** [x ? '[REDACTED]' : undefined] *)
Definition redact (x : option string) : option string :=
  if truthy x then Some "[REDACTED]" else None.

(** Sanitizes configuration for logging (removes sensitive data) *)
Definition sanitizeConfigForLogging (config : PlatformConfig) : Sanitized.t :=
  Sanitized.mk (name config) (enabled config) (baseUrl config) (version config)
    (timeout config) (retryAttempts config) (rateLimitPerMinute config)
    (Sanitized.mkCredentials
       (redact (apiKey (credentials config)))
       (redact (apiSecret (credentials config)))
       (redact (accessToken (credentials config)))
       (redact (refreshToken (credentials config)))
       (redact (webhookSecret (credentials config)))).

(** ** docker: the constructor of [DockerClient] and [ping] *)

Module DockerClient.

(** The configuration the constructor builds from [process.env]. *)
Definition config (env : gmap string string) : PlatformConfig :=
  let dockerHost := or_else (env !! "DOCKER_HOST") "http://localhost:2375" in
  createPlatformConfig env "Docker" dockerHost "DOCKER"
    {| opt_version := Some "v1.43"; opt_timeout := Some 60000%Z;
       opt_retryAttempts := None; opt_rateLimitPerMinute := None |}.

(** [try { await this.http.get('/_ping'); return true; } catch { return false; }] *)
Definition ping (env : gmap string string) (config : PlatformConfig)
    (net : Network) : M bool :=
  try_catch
    (bind (Methods.get env config net "/_ping" None) (fun _ => ret true))
    (fun _ => ret false).

End DockerClient.

(** ** github: [toCamelCase] of [GitHubClient] *)

Module GitHubClient.

Definition to_upper (c : ascii) : ascii :=
  if is_lower c then ascii_of_N (code c - 32) else c.

(** [key.replace(/_([a-z])/g, (_, letter) => letter.toUpperCase())]:
    from left to right, an underscore followed by a lower-case letter
    becomes that letter in upper case. *)
Fixpoint camelKey (key : string) : string :=
  match key with
  | EmptyString => EmptyString
  | String c r =>
      match r with
      | String l r' =>
          if Ascii.eqb c "_" && is_lower l
          then String (to_upper l) (camelKey r')
          else String c (camelKey r)
      | EmptyString => String c EmptyString
      end
  end.

(** Convert snake_case to camelCase for responses: the entries of the
    object are assigned, in order, to the converted keys of a fresh
    object. An assignment makes or updates a field for every name but
    [__proto__], which no converted key is. *)
Definition toCamelCase (entries : list (string * Json)) : gmap string Json :=
  fold_left (fun result kv => <[camelKey kv.1 := kv.2]> result) entries ∅.

End GitHubClient.

(** ** platforms/index.ts: the registry *)

Module Registry.

Inductive PlatformCategory :=
  | cloud_deployment
  | developer_tools
  | mobile_ios
  | hardware
  | productivity
  | auth_payments
  | ai_ml
  | networking.

#[global] Instance PlatformCategory_eq_dec : EqDecision PlatformCategory.
Proof. solve_decision. Defined.

Record PlatformEntry := mk {
  name : string;
  category : PlatformCategory;
  description : string;
  envPrefix : string;
  requiredEnvVars : list string;
  optionalEnvVars : list string;
  docs : option string
}.

(** Master registry of all platforms *)
Definition PLATFORM_REGISTRY : list PlatformEntry := [
  mk "Railway" cloud_deployment "Railway.app deployment platform" "RAILWAY"
     ["RAILWAY_API_KEY"] ["RAILWAY_ENABLED"]
     (Some "https://docs.railway.app/reference/public-api");
  mk "Cloudflare" cloud_deployment "Cloudflare Workers, DNS, R2, KV, D1, and more"
     "CLOUDFLARE" ["CLOUDFLARE_API_KEY"; "CLOUDFLARE_ACCOUNT_ID"] ["CLOUDFLARE_ENABLED"]
     (Some "https://developers.cloudflare.com/api/");
  mk "Vercel" cloud_deployment "Vercel deployment platform" "VERCEL"
     ["VERCEL_ACCESS_TOKEN"] ["VERCEL_TEAM_ID"; "VERCEL_ENABLED"]
     (Some "https://vercel.com/docs/rest-api");
  mk "DigitalOcean" cloud_deployment
     "DigitalOcean Droplets, Kubernetes, Spaces, and more" "DIGITALOCEAN"
     ["DIGITALOCEAN_API_KEY"] ["DIGITALOCEAN_ENABLED"]
     (Some "https://docs.digitalocean.com/reference/api/");
  mk "GitHub" developer_tools "GitHub repositories, issues, PRs, and Actions"
     "GITHUB" ["GITHUB_ACCESS_TOKEN"] ["GITHUB_ENABLED"]
     (Some "https://docs.github.com/en/rest");
  mk "Docker" developer_tools "Docker container management" "DOCKER"
     [] ["DOCKER_HOST"; "DOCKER_CERT_PATH"; "DOCKER_TLS_VERIFY"; "DOCKER_ENABLED"]
     (Some "https://docs.docker.com/engine/api/");
  mk "Warp" mobile_ios "Warp terminal workflow and theme management" "WARP"
     [] ["WARP_ENABLED"] (Some "https://docs.warp.dev/");
  mk "Shellfish" mobile_ios "Shellfish iOS SSH client automation" "SHELLFISH"
     [] ["SHELLFISH_ENABLED"] (Some "https://shellfishapp.com/");
  mk "WorkingCopy" mobile_ios "Working Copy iOS Git client automation"
     "WORKING_COPY" [] ["WORKING_COPY_API_KEY"; "WORKING_COPY_ENABLED"]
     (Some "https://workingcopy.app/url-schemes.html");
  mk "Pyto" mobile_ios "Pyto iOS Python IDE automation" "PYTO"
     [] ["PYTO_ENABLED"] (Some "https://pyto.app/");
  mk "RaspberryPi" hardware "Raspberry Pi fleet management" "PI_FLEET"
     [] ["PI_FLEET_ENABLED"; "PI_SSH_KEY_PATH"; "PI_SSH_USER"; "PI_AGENT_PORT"] None;
  mk "Asana" productivity "Asana project and task management" "ASANA"
     ["ASANA_ACCESS_TOKEN"] ["ASANA_ENABLED"]
     (Some "https://developers.asana.com/docs/");
  mk "Notion" productivity "Notion workspace, pages, and databases" "NOTION"
     ["NOTION_ACCESS_TOKEN"] ["NOTION_ENABLED"]
     (Some "https://developers.notion.com/");
  mk "Clerk" auth_payments "Clerk authentication and user management" "CLERK"
     ["CLERK_API_KEY"] ["CLERK_PUBLISHABLE_KEY"; "CLERK_ENABLED"]
     (Some "https://clerk.com/docs/reference/backend-api");
  mk "Stripe" auth_payments "Stripe payments, subscriptions, and billing" "STRIPE"
     ["STRIPE_API_KEY"] ["STRIPE_WEBHOOK_SECRET"; "STRIPE_ENABLED"]
     (Some "https://stripe.com/docs/api");
  mk "HuggingFace" ai_ml "Hugging Face models, datasets, and inference"
     "HUGGINGFACE" ["HUGGINGFACE_API_KEY"] ["HUGGINGFACE_ENABLED"]
     (Some "https://huggingface.co/docs/api-inference");
  mk "OSSModels" ai_ml "Safe, auditable open source LLM models registry"
     "OSS_MODELS" [] ["OSS_MODELS_ENABLED"] None;
  mk "Tunnels" networking
     "Unified tunneling (ngrok, cloudflared, localtunnel, etc.)" "TUNNEL"
     [] ["TUNNEL_ENABLED"; "NGROK_AUTH_TOKEN"; "CLOUDFLARE_TUNNEL_TOKEN";
         "TAILSCALE_AUTH_KEY"; "FRP_SERVER_ADDR"; "FRP_SERVER_PORT"; "FRP_TOKEN"]
     None
].

(** Get platforms by category *)
Definition getPlatformsByCategory (c : PlatformCategory) : list PlatformEntry :=
  List.filter (fun p => bool_decide (category p = c)) PLATFORM_REGISTRY.

(** Get platform by name; [toLowerCase] is that of ASCII, which is the
    one of JavaScript on the strings of ASCII characters. *)
Definition getPlatformByName (name' : string) : option PlatformEntry :=
  List.find (fun p => String.eqb (Str.lower (name p)) (Str.lower name'))
    PLATFORM_REGISTRY.

(** Get all required environment variables for a platform *)
Definition getRequiredEnvVars (platformName : string) : list string :=
  match getPlatformByName platformName with
  | Some platform => requiredEnvVars platform
  | None => []
  end.

(** Check if a platform is configured *)
Definition isPlatformConfigured (env : gmap string string)
    (platformName : string) : bool :=
  match getPlatformByName platformName with
  | None => false
  | Some platform =>
      forallb (fun envVar => truthy (env !! envVar)) (requiredEnvVars platform)
  end.

(** Get all configured platforms *)
Definition getConfiguredPlatforms (env : gmap string string) : list PlatformEntry :=
  List.filter (fun p => isPlatformConfigured env (name p)) PLATFORM_REGISTRY.

(** Get unconfigured platforms *)
Definition getUnconfiguredPlatforms (env : gmap string string) : list PlatformEntry :=
  List.filter (fun p => negb (isPlatformConfigured env (name p))) PLATFORM_REGISTRY.

End Registry.

(** ** More vocabulary *)

(** The names for which every object answers, from [Object.prototype]. *)
Definition inherited_names : list string :=
  ["constructor"; "__defineGetter__"; "__defineSetter__"; "hasOwnProperty";
   "__lookupGetter__"; "__lookupSetter__"; "isPrototypeOf";
   "propertyIsEnumerable"; "toString"; "valueOf"; "__proto__";
   "toLocaleString"].

(** The endings of the names that [createPlatformConfig] reads. *)
Definition config_suffixes : list string :=
  ["_ENABLED"; "_API_KEY"; "_API_SECRET"; "_ACCESS_TOKEN"; "_REFRESH_TOKEN";
   "_WEBHOOK_SECRET"].

Fixpoint last_char (s : string) : option ascii :=
  match s with
  | EmptyString => None
  | String c r => match r with EmptyString => Some c | String _ _ => last_char r end
  end.


(** The clock time that a list of gaps adds up to. *)
Definition elapsed_time (gaps : list Z) : Z := fold_right Z.add 0%Z gaps.

(** Every request that the call [call] sends from the state [s] is sent
    with [init]. *)
Definition sends_only {A} (call : M A) (s : State) (init : RequestInit) : Prop :=
  exists t,
    trace (call s).2 = trace s ++ t
    /\ forall u i, (u, i) ∈ requests t -> i = init.

(** What a convenience method passes to [fetch]: the method, the default
    and auth headers, the body, the timeout of the configuration. *)
Definition bare_init (config : PlatformConfig) (m : Method) (body : option Json)
  : RequestInit :=
  {| init_method := m;
     init_headers :=
       spread {[ "Content-Type" := "application/json";
                 "User-Agent" := "BlackRoad-CLI/" +:+ version config ]}
              (getAuthHeaders config);
     init_body := body;
     init_timeout := timeout config |}.

(** ** More sample data *)

Module Sample2.

(** The GitHub configuration with other secrets. *)
Definition github_rotated : PlatformConfig :=
  {| name := "GitHub"; enabled := true; baseUrl := "https://api.github.com";
     version := "2022-11-28";
     credentials := {| apiKey := Some "another key"; apiSecret := None;
                       accessToken := Some "another token";
                       refreshToken := None; webhookSecret := None |};
     timeout := 30000; retryAttempts := 3; rateLimitPerMinute := 60 |}.

(** A configuration made by hand with no attempt at all. *)
Definition github_no_attempt : PlatformConfig :=
  {| name := "GitHub"; enabled := true; baseUrl := "https://api.github.com";
     version := "2022-11-28"; credentials := Sample.credentials_both;
     timeout := 30000; retryAttempts := 0; rateLimitPerMinute := 60 |}.

(** A base URL without a scheme. *)
Definition no_scheme : PlatformConfig :=
  {| name := "GitHub"; enabled := true; baseUrl := "api.github.com";
     version := "2022-11-28"; credentials := Sample.credentials_both;
     timeout := 30000; retryAttempts := 3; rateLimitPerMinute := 60 |}.

(** The Notion and Railway configurations, as their clients make them
    from an empty environment, and Notion without the path of its base
    URL. *)
Definition notion : PlatformConfig :=
  createPlatformConfig ∅ "Notion" "https://api.notion.com/v1" "NOTION"
    {| opt_version := Some "v1"; opt_timeout := None; opt_retryAttempts := None;
       opt_rateLimitPerMinute := Some 300%Z |}.
Definition notion_root : PlatformConfig :=
  createPlatformConfig ∅ "Notion" "https://api.notion.com" "NOTION"
    {| opt_version := Some "v1"; opt_timeout := None; opt_retryAttempts := None;
       opt_rateLimitPerMinute := Some 300%Z |}.
Definition railway : PlatformConfig :=
  createPlatformConfig ∅ "Railway" "https://backboard.railway.app/graphql/v2" "RAILWAY"
    {| opt_version := Some "v2"; opt_timeout := None; opt_retryAttempts := None;
       opt_rateLimitPerMinute := Some 100%Z |}.

Definition parsed (url : string) : URL.t :=
  default (URL.mk "" "" "" None None (URL.Segments []) None None [])
    (URL.new url None).

(** An environment with a GitHub token and an API key. *)
Definition github_env : gmap string string :=
  {[ "GITHUB_ACCESS_TOKEN" := "ghp_token"; "GITHUB_API_KEY" := "unused" ]}.

Definition github_options : ConfigOptions :=
  {| opt_version := Some "2022-11-28"; opt_timeout := None;
     opt_retryAttempts := None; opt_rateLimitPerMinute := Some 5000%Z |}.

(** A limiter of 3 calls a minute whose window, open until 60000, is
    used up at time 100. *)
Definition used_up : State :=
  {| now := 100;
     rateLimiter := {| remaining := 0; limit := 3; resetAt := 60000 |};
     trace := [] |}.



End Sample2.

(** * Properties *)

(** ** The retry loop *)

Section RetryLoop.

Variable config : PlatformConfig.
Variable net : Network.
Variable url : string.
Variable options : HttpRequestOptions.t.

Local Abbreviation init := (requestInit config options).

(** *** Attempts whose delay [AbortSignal.timeout] accepts *)

Lemma attempt_once_failure attempt e s :
  valid_delay (init_timeout init) = true ->
  attempt_error (net attempt) = Some e ->
  attempt_once config net attempt url options s
  = (inl e, fetched (net attempt) url init s).
Proof.
  intros Hd.
  unfold attempt_error, attempt_once, AbortSignal_timeout, bind, fetch,
    response_json, fetched, ret.
  cbv zeta. rewrite Hd.
  destruct (result (net attempt)) as [e' | r]; [congruence |].
  destruct (json r) as [e' | d]; [congruence | discriminate].
Qed.

Lemma attempt_once_success attempt r d s :
  valid_delay (init_timeout init) = true ->
  attempt_success (net attempt) = Some (r, d) ->
  attempt_once config net attempt url options s
  = (inr (envelope r d), fetched (net attempt) url init s).
Proof.
  intros Hd.
  unfold attempt_success, attempt_once, AbortSignal_timeout, bind, fetch,
    response_json, fetched, ret.
  cbv zeta. rewrite Hd.
  destruct (result (net attempt)) as [e' | r']; [discriminate |].
  destruct (json r') as [e' | d'] eqn:Hj; [discriminate |].
  by intros [= -> ->].
Qed.

(** A failed attempt: its error becomes [lastError], the backoff runs
    when another attempt is due, and the loop goes on. *)
Lemma retry_loop_failure todo attempt last e s :
  valid_delay (init_timeout init) = true ->
  attempt_error (net attempt) = Some e ->
  retry_loop config net (S todo) attempt last url options s
  = retry_loop config net todo (S attempt) (Some e) url options
      (after_failure config net url init attempt s).
Proof.
  intros Hd He. cbn [retry_loop]. unfold try_catch.
  rewrite (attempt_once_failure _ _ _ Hd He).
  unfold bind, after_failure.
  destruct (Z.of_nat attempt <? retryAttempts config - 1)%Z; reflexivity.
Qed.

(** A successful attempt ends the loop with its response. *)
Lemma retry_loop_success todo attempt last r d s :
  valid_delay (init_timeout init) = true ->
  attempt_success (net attempt) = Some (r, d) ->
  retry_loop config net (S todo) attempt last url options s
  = (inr (envelope r d), fetched (net attempt) url init s).
Proof.
  intros Hd Hs. cbn [retry_loop]. unfold try_catch.
  by rewrite (attempt_once_success _ _ _ _ Hd Hs).
Qed.


(** *** Attempts whose delay [AbortSignal.timeout] refuses *)

(** The attempt throws before [fetch] is called, whatever the network
    would answer. *)
Lemma attempt_once_refused attempt s :
  valid_delay (init_timeout init) = false ->
  attempt_once config net attempt url options s
  = (inl (delay_out_of_range (init_timeout init)), s).
Proof.
  intros Hd. unfold attempt_once, AbortSignal_timeout, bind, throw.
  cbv zeta. by rewrite Hd.
Qed.

(** The error is caught like any other: it becomes [lastError], the
    backoff runs, and the loop goes on to refuse the next attempt. *)
Lemma retry_loop_refusal todo attempt last s :
  valid_delay (init_timeout init) = false ->
  retry_loop config net (S todo) attempt last url options s
  = retry_loop config net todo (S attempt)
      (Some (delay_out_of_range (init_timeout init))) url options
      (after_refusal config attempt s).
Proof.
  intros Hd. cbn [retry_loop]. unfold try_catch.
  rewrite (attempt_once_refused _ _ Hd).
  unfold bind, after_refusal.
  destruct (Z.of_nat attempt <? retryAttempts config - 1)%Z; reflexivity.
Qed.

Lemma retry_loop_refusals todo : forall attempt last s,
  valid_delay (init_timeout init) = false ->
  retry_loop config net todo attempt last url options s
  = (inl (match todo with
          | O => default (Error "Request failed after retries") last
          | S _ => delay_out_of_range (init_timeout init)
          end),
     after_refusals config attempt todo s).
Proof.
  induction todo as [| todo IH]; intros attempt last s Hd; [reflexivity |].
  rewrite (retry_loop_refusal _ _ _ _ Hd), IH by exact Hd.
  by destruct todo.
Qed.


Lemma sleeps_app t1 t2 : sleeps (t1 ++ t2) = sleeps t1 ++ sleeps t2.
Proof. apply omap_app. Qed.

Lemma requests_app t1 t2 : requests (t1 ++ t2) = requests t1 ++ requests t2.
Proof. apply omap_app. Qed.

Lemma backoffs_cons from n :
  backoffs from (S n) = (2 ^ Z.of_nat from * 1000)%Z :: backoffs (S from) n.
Proof. reflexivity. Qed.


Lemma after_refusals_rateLimiter k : forall attempt s,
  rateLimiter (after_refusals config attempt k s) = rateLimiter s.
Proof.
  induction k as [| k IH]; intros attempt s; [done |].
  cbn [after_refusals]. rewrite IH. unfold after_refusal.
  by destruct (Z.of_nat attempt <? retryAttempts config - 1)%Z.
Qed.

(** What [k] refused attempts add to the trace: no request, and a
    backoff after each of them that is not the last attempt the
    configuration allows. *)
Lemma after_refusals_trace k : forall attempt s,
  exists t,
    trace (after_refusals config attempt k s) = trace s ++ t
    /\ fetch_count t = 0%nat
    /\ requests t = []
    /\ sleeps t
       = backoffs attempt
           (Nat.min k (Z.to_nat (retryAttempts config - 1 - Z.of_nat attempt))).
Proof.
  induction k as [| k IH]; intros attempt s.
  - exists []. by rewrite app_nil_r.
  - cbn [after_refusals].
    destruct (IH (S attempt) (after_refusal config attempt s))
      as (t & Ht & Hf & Hr & Hs).
    unfold after_refusal in Ht |- *.
    destruct (Z.of_nat attempt <? retryAttempts config - 1)%Z eqn:Hlt.
    + apply Z.ltb_lt in Hlt.
      exists (Sleep (2 ^ Z.of_nat attempt * 1000) :: t).
      split; [| split; [| split]].
      * rewrite Ht. cbn [trace slept]. by rewrite <- !app_assoc.
      * exact Hf.
      * exact Hr.
      * replace (Z.to_nat (retryAttempts config - 1 - Z.of_nat attempt))
          with (S (Z.to_nat (retryAttempts config - 1 - Z.of_nat (S attempt))))
          by lia.
        rewrite <- Nat.succ_min_distr, backoffs_cons, <- Hs. reflexivity.
    + apply Z.ltb_ge in Hlt.
      exists t. split; [exact Ht |]. split; [exact Hf |]. split; [exact Hr |].
      replace (Z.to_nat (retryAttempts config - 1 - Z.of_nat attempt))
        with O by lia.
      replace (Z.to_nat (retryAttempts config - 1 - Z.of_nat (S attempt)))
        with O in Hs by lia.
      rewrite Nat.min_0_r in Hs |- *. exact Hs.
Qed.


End RetryLoop.

(** ** [request] as a whole *)

Section Request.

Variable env : gmap string string.
Variable config : PlatformConfig.
Variable net : Network.
Variable options : HttpRequestOptions.t.

Local Abbreviation init := (requestInit config options).
Local Abbreviation attempts := (Z.to_nat (retryAttempts config)).

(** The rate-limit check never throws. *)
Lemma checkRateLimit_returns s : (checkRateLimit s).1 = inr tt.
Proof.
  unfold checkRateLimit, bind, Date_now, get_rateLimiter, set_rateLimiter, ret, sleep.
  cbn. destruct (resetAt (rateLimiter s) <? now s)%Z; cbn;
    repeat match goal with |- context [if ?b then _ else _] => destruct b; cbn end;
    reflexivity.
Qed.

(** Past URL validation, [request] is the rate-limit check followed by
    the retry loop. *)
Lemma request_valid url s :
  buildUrl config (HttpRequestOptions.path options) (HttpRequestOptions.query options)
  = inr url ->
  validateUrl env url = true ->
  request env config net options s
  = retry_loop config net attempts 0 None url options (checkRateLimit s).2.
Proof.
  intros Hb Hv. unfold request. rewrite Hb, Hv. cbn [negb]. unfold bind.
  pose proof (checkRateLimit_returns s) as Hc.
  destruct (checkRateLimit s) as [[e | []] s1]; cbn in Hc |- *; congruence.
Qed.




End Request.

(** ** C5: three attempts, one and two seconds of backoff *)




(** ** C10: a body that does not decode makes the attempt fail *)



(** ** C7: a URL that fails validation *)

(** C7. When the URL that [buildUrl] returns fails [validateUrl],
    [request] throws the error [Invalid or blocked URL: <url>] at once and
    leaves the state as it found it: no network attempt and no timer are
    added to the trace, and [remaining], [limit] and [resetAt] of the rate
    limiter are unchanged. *)
Theorem invalid_url_aborts env config net options url s :
  buildUrl config (HttpRequestOptions.path options) (HttpRequestOptions.query options)
  = inr url ->
  validateUrl env url = false ->
  exists s',
    request env config net options s
    = (inl (Error ("Invalid or blocked URL: " +:+ url)), s')
    /\ trace s' = trace s
    /\ rateLimiter s' = rateLimiter s
    /\ s' = s.
Proof.
  intros Hb Hv. exists s. unfold request. rewrite Hb, Hv. by cbn.
Qed.

Lemma invalid_url_aborts_witness :
  exists s',
    request Sample.production_env Sample.docker Sample.net_404 Sample.get_info
      (constructor Sample.docker 0)
    = (inl (Error "Invalid or blocked URL: http://localhost:2375/info"), s')
    /\ trace s' = trace (constructor Sample.docker 0)
    /\ rateLimiter s' = rateLimiter (constructor Sample.docker 0)
    /\ s' = constructor Sample.docker 0.
Proof.
  apply (invalid_url_aborts Sample.production_env Sample.docker Sample.net_404
           Sample.get_info "http://localhost:2375/info" (constructor Sample.docker 0));
    vm_compute; reflexivity.
Defined.

(** ** C1: what counts as a transient failure *)




(** ** The rate limiter *)

Section RateLimiter.

Variable s : State.

Local Abbreviation rl := (rateLimiter s).

Ltac run_check :=
  unfold checkRateLimit, bind, Date_now, get_rateLimiter, set_rateLimiter, ret, sleep;
  cbn [fst snd now rateLimiter trace remaining limit resetAt].

(** The window is open and has room: the call passes at once. *)
Lemma check_pass :
  (now s <= resetAt rl)%Z -> (0 < remaining rl)%Z ->
  checkRateLimit s
  = (inr tt,
     {| now := now s;
        rateLimiter := {| remaining := remaining rl - 1; limit := limit rl;
                          resetAt := resetAt rl |};
        trace := trace s |}).
Proof.
  intros Hw Hr. run_check.
  destruct (Z.ltb_spec (resetAt rl) (now s)); [lia |]. cbn.
  destruct (Z.leb_spec (remaining rl) 0); [lia |]. reflexivity.
Qed.

(** The window is open and used up: the call sleeps until [resetAt]. *)
Lemma check_wait :
  (now s <= resetAt rl)%Z -> (remaining rl <= 0)%Z ->
  checkRateLimit s
  = (inr tt,
     {| now := now s + Z.max 0 (resetAt rl - now s);
        rateLimiter := {| remaining := limit rl - 1; limit := limit rl;
                          resetAt := resetAt rl |};
        trace := trace s ++ [Sleep (resetAt rl - now s)] |}).
Proof.
  intros Hw Hr. run_check.
  destruct (Z.ltb_spec (resetAt rl) (now s)); [lia |]. cbn.
  destruct (Z.leb_spec (remaining rl) 0); [| lia]. reflexivity.
Qed.

(** The window is over: a new one opens, and the call passes at once
    when the limit is positive. *)
Lemma check_reset :
  (resetAt rl < now s)%Z -> (0 < limit rl)%Z ->
  checkRateLimit s
  = (inr tt,
     {| now := now s;
        rateLimiter := {| remaining := limit rl - 1; limit := limit rl;
                          resetAt := now s + 60000 |};
        trace := trace s |}).
Proof.
  intros Hw Hl. run_check.
  destruct (Z.ltb_spec (resetAt rl) (now s)); [| lia]. cbn.
  destruct (Z.leb_spec (limit rl) 0); [lia |]. reflexivity.
Qed.

(** The rate-limit check keeps the limit, and leaves [remaining] one
    below its former value or one below the limit. *)
Lemma check_remaining :
  limit (rateLimiter (checkRateLimit s).2) = limit rl
  /\ (remaining (rateLimiter (checkRateLimit s).2) = limit rl - 1
      \/ (0 < remaining rl
          /\ remaining (rateLimiter (checkRateLimit s).2) = remaining rl - 1))%Z.
Proof.
  run_check.
  destruct (Z.ltb_spec (resetAt rl) (now s)); cbn.
  - destruct (Z.leb_spec (limit rl) 0); cbn; auto.
  - destruct (Z.leb_spec (remaining rl) 0); cbn; auto.
Qed.

End RateLimiter.

(** The retry loop does not touch the rate limiter. *)
Lemma retry_loop_rateLimiter config net url options todo :
  forall attempt last s,
    rateLimiter (retry_loop config net todo attempt last url options s).2
    = rateLimiter s.
Proof.
  destruct (valid_delay (init_timeout (requestInit config options))) eqn:Hd.
  2:{ intros attempt last s. rewrite retry_loop_refusals by exact Hd.
      apply after_refusals_rateLimiter. }
  induction todo as [| todo IH]; intros attempt last s; [done |].
  destruct (attempt_success (net attempt)) as [[r d] |] eqn:Hs.
  - by rewrite (retry_loop_success _ _ _ _ _ _ _ r d _ Hd).
  - assert (exists e, attempt_error (net attempt) = Some e) as [e He].
    { unfold attempt_success in Hs. unfold attempt_error.
      destruct (result (net attempt)) as [e | r]; [eauto |].
      destruct (json r); [eauto | discriminate]. }
    rewrite (retry_loop_failure _ _ _ _ _ _ _ e _ Hd) by done.
    rewrite IH. unfold after_failure.
    by destruct (Z.of_nat attempt <? retryAttempts config - 1)%Z.
Qed.

(** [request] changes the rate limiter by one rate-limit check, or not
    at all when it throws before the check. *)
Lemma request_rateLimiter env config net options s :
  rateLimiter (request env config net options s).2 = rateLimiter s
  \/ rateLimiter (request env config net options s).2
     = rateLimiter (checkRateLimit s).2.
Proof.
  unfold request.
  destruct (buildUrl _ _ _) as [e | url]; [by left |].
  destruct (validateUrl env url); [| by left]. right.
  cbn [negb]. unfold bind.
  pose proof (checkRateLimit_returns s) as Hc.
  destruct (checkRateLimit s) as [[e | []] s1]; cbn in Hc; [discriminate |].
  apply retry_loop_rateLimiter.
Qed.

(** The configurations that [createPlatformConfig] makes have a limit
    of at least 1 whenever the option is absent, zero or a positive whole
    number: zero is falsy and gives way to the default of 60. *)
Lemma createPlatformConfig_limit env name baseUrl envPrefix options :
  (forall n, opt_rateLimitPerMinute options = Some n -> 0 <= n)%Z ->
  (1 <= rateLimitPerMinute
          (createPlatformConfig env name baseUrl envPrefix options))%Z.
Proof.
  intros Hn. cbn. unfold or_else.
  destruct (opt_rateLimitPerMinute options) as [n |]; [| lia].
  specialize (Hn n eq_refl). unfold truthy, truthy_Z.
  destruct (Z.eqb_spec n 0); cbn; lia.
Qed.

(** ** C4: a limit of two calls a minute *)

(** C4. A client whose limit is 2 is built at time [t0]; three calls
    reach the rate-limit check [d1], [d2] and [d3] milliseconds apart,
    all within the 60 seconds of the first window. The first two pass
    without a timer and without the clock moving; the third sleeps for
    the time left until [resetAt], so it passes at [resetAt], and leaves
    [remaining = limit - 1]. *)
Theorem rate_limit_two_then_wait config t0 d1 d2 d3 :
  rateLimitPerMinute config = 2%Z ->
  (0 <= d1)%Z -> (0 <= d2)%Z -> (0 <= d3)%Z ->
  (d1 + d2 + d3 <= 60000)%Z ->
  let s0 := constructor config t0 in
  let s1 := (checkRateLimit (advance d1 s0)).2 in
  let s2 := (checkRateLimit (advance d2 s1)).2 in
  let s3 := (checkRateLimit (advance d3 s2)).2 in
  (trace s1 = [] /\ now s1 = t0 + d1)%Z
  /\ (trace s2 = [] /\ now s2 = t0 + d1 + d2)%Z
  /\ resetAt (rateLimiter s2) = (t0 + 60000)%Z
  /\ trace s3 = [Sleep (t0 + 60000 - (t0 + d1 + d2 + d3))]
  /\ now s3 = resetAt (rateLimiter s2)
  /\ limit (rateLimiter s3) = 2%Z
  /\ remaining (rateLimiter s3) = (limit (rateLimiter s3) - 1)%Z.
Proof.
  intros HL H1 H2 H3 Hsum s0 s1 s2 s3.
  assert (E1 : s1 = {| now := t0 + d1;
                       rateLimiter := {| remaining := 1; limit := 2;
                                         resetAt := t0 + 60000 |};
                       trace := [] |}).
  { subst s1 s0. rewrite check_pass; cbn; rewrite ?HL; (lia || reflexivity). }
  assert (E2 : s2 = {| now := t0 + d1 + d2;
                       rateLimiter := {| remaining := 0; limit := 2;
                                         resetAt := t0 + 60000 |};
                       trace := [] |}).
  { subst s2. rewrite E1. rewrite check_pass; cbn; (lia || reflexivity). }
  assert (E3 : s3 = {| now := t0 + d1 + d2 + d3
                              + Z.max 0 (t0 + 60000 - (t0 + d1 + d2 + d3));
                       rateLimiter := {| remaining := 2 - 1; limit := 2;
                                         resetAt := t0 + 60000 |};
                       trace := [Sleep (t0 + 60000 - (t0 + d1 + d2 + d3))] |}).
  { subst s3. rewrite E2. rewrite check_wait; cbn; (lia || reflexivity). }
  rewrite E1, E2, E3. cbn. repeat split; lia.
Qed.

Lemma rate_limit_two_then_wait_witness :
  (trace (checkRateLimit (advance 10 (constructor (Sample.github 2) 1000))).2 = []
   /\ now (checkRateLimit (advance 10 (constructor (Sample.github 2) 1000))).2
      = 1010%Z)
  /\ trace (checks [10; 20; 30]%Z (constructor (Sample.github 2) 1000))
     = [Sleep 59940]
  /\ now (checks [10; 20; 30]%Z (constructor (Sample.github 2) 1000)) = 61000%Z
  /\ remaining (rateLimiter (checks [10; 20; 30]%Z (constructor (Sample.github 2) 1000)))
     = 1%Z.
Proof.
  destruct (rate_limit_two_then_wait (Sample.github 2) 1000 10 20 30)
    as (H1 & _ & HR & Ht & Hn & HL & Hrem);
    [reflexivity | lia | lia | lia | lia |].
  split; [exact H1 |]. split; [exact Ht |]. split.
  - exact (eq_trans Hn HR).
  - change (remaining (rateLimiter (checks [10; 20; 30]%Z
                                      (constructor (Sample.github 2) 1000))))
      with (remaining (rateLimiter
              (checkRateLimit (advance 30
                 (checkRateLimit (advance 20
                    (checkRateLimit (advance 10
                       (constructor (Sample.github 2) 1000))).2)).2)).2)).
    rewrite Hrem, HL. reflexivity.
Defined.

(** ** C8: the invariant of the rate limiter *)

(** C8, as stated, fails: with a limit of 0 the invariant holds after
    construction, and the first rate-limit check breaks it: the call
    waits for the end of the window, sets [remaining] to the limit, 0,
    and decrements it to -1. *)
Lemma limiter_invariant_broken_at_limit_zero :
  limiter_ok (rateLimiter (constructor (Sample.github 0) 0))
  /\ remaining (rateLimiter (checkRateLimit (constructor (Sample.github 0) 0)).2)
     = (-1)%Z
  /\ ~ limiter_ok (rateLimiter (checkRateLimit (constructor (Sample.github 0) 0)).2).
Proof.
  split; [| split].
  - vm_compute. split; discriminate.
  - reflexivity.
  - vm_compute. intros [H _]. by apply H.
Qed.

(** C8, amended. For a client whose limit is a whole number of at least
    1, and used by one call at a time, [0 <= remaining <= limit] holds
    after construction, is preserved by every rate-limit check (through
    its reset branch, its wait branch and the decrement), hence holds
    after any number of checks whatever the time between them, and is
    preserved by every [request]. *)
Theorem limiter_invariant config t0 (gaps : list Z) :
  (1 <= rateLimitPerMinute config)%Z ->
  limiter_ok (rateLimiter (constructor config t0))
  /\ (forall s,
        limit (rateLimiter s) = rateLimitPerMinute config ->
        limiter_ok (rateLimiter s) ->
        limiter_ok (rateLimiter (checkRateLimit s).2)
        /\ limit (rateLimiter (checkRateLimit s).2) = rateLimitPerMinute config)
  /\ limiter_ok (rateLimiter (checks gaps (constructor config t0)))
  /\ (forall env net options s,
        limit (rateLimiter s) = rateLimitPerMinute config ->
        limiter_ok (rateLimiter s) ->
        limiter_ok (rateLimiter (request env config net options s).2)).
Proof.
  intros HL.
  assert (Hstep : forall s,
        limit (rateLimiter s) = rateLimitPerMinute config ->
        limiter_ok (rateLimiter s) ->
        limiter_ok (rateLimiter (checkRateLimit s).2)
        /\ limit (rateLimiter (checkRateLimit s).2) = rateLimitPerMinute config).
  { intros s Hlim Hok. unfold limiter_ok in *.
    destruct (check_remaining s) as [Hl [Hr | [Hpos Hr]]];
      rewrite Hl, Hr; split; lia. }
  assert (H0 : limiter_ok (rateLimiter (constructor config t0))).
  { unfold limiter_ok. cbn. lia. }
  split; [exact H0 |]. split; [exact Hstep |]. split.
  - unfold checks.
    assert (Hgen : forall s,
      limit (rateLimiter s) = rateLimitPerMinute config ->
      limiter_ok (rateLimiter s) ->
      limiter_ok (rateLimiter
        (fold_left (fun s d => (checkRateLimit (advance d s)).2) gaps s))).
    { induction gaps as [| d gaps IH]; intros s Hlim Hok; [done |].
      cbn [fold_left]. destruct (Hstep (advance d s)) as [Hok' Hlim']; [done .. |].
      by apply IH. }
    by apply Hgen.
  - intros env net options s Hlim Hok.
    destruct (request_rateLimiter env config net options s) as [-> | ->]; [done |].
    by apply Hstep.
Qed.

Lemma limiter_invariant_witness :
  limiter_ok (rateLimiter (checks [10; 20; 30; 70000; 5]%Z
                             (constructor (Sample.github 2) 1000))).
Proof.
  destruct (limiter_invariant (Sample.github 2) 1000 [10; 20; 30; 70000; 5]%Z)
    as (_ & _ & H & _); [vm_compute; discriminate | exact H].
Defined.

(** ** Headers of the outgoing request *)

Section Headers.

Variable config : PlatformConfig.

Local Abbreviation defaults :=
  ({[ "Content-Type" := "application/json";
      "User-Agent" := "BlackRoad-CLI/" +:+ version config ]} : gmap string string).


(** The auth headers name [Authorization] or [X-API-Key], nothing else. *)
Lemma getAuthHeaders_keys k :
  k <> "Authorization" -> k <> "X-API-Key" -> getAuthHeaders config !! k = None.
Proof.
  intros H1 H2. unfold getAuthHeaders.
  destruct (truthy (accessToken (credentials config)));
    [by rewrite lookup_singleton_ne |].
  destruct (truthy (apiKey (credentials config)));
    [by rewrite lookup_singleton_ne | apply lookup_empty].
Qed.

Lemma getAuthHeaders_token t :
  accessToken (credentials config) = Some t -> t <> "" ->
  getAuthHeaders config = {[ "Authorization" := "Bearer " +:+ t ]}.
Proof.
  intros Ht Hne. unfold getAuthHeaders. rewrite Ht. cbn.
  by destruct t.
Qed.

Lemma getAuthHeaders_key k :
  truthy (accessToken (credentials config)) = false ->
  apiKey (credentials config) = Some k -> k <> "" ->
  getAuthHeaders config = {[ "X-API-Key" := k ]}.
Proof.
  intros Ht Hk Hne. unfold getAuthHeaders. rewrite Ht, Hk. cbn.
  by destruct k.
Qed.


End Headers.

(** *** The requests that [request] sends *)

Lemma checkRateLimit_trace s :
  exists t, trace (checkRateLimit s).2 = trace s ++ t /\ requests t = [].
Proof.
  unfold checkRateLimit, bind, Date_now, get_rateLimiter, set_rateLimiter, ret, sleep.
  cbn [fst snd now rateLimiter trace remaining limit resetAt].
  destruct (resetAt (rateLimiter s) <? now s)%Z; cbn;
    match goal with |- context [if ?b then _ else _] => destruct b; cbn end;
    first [ by exists []; rewrite app_nil_r | by eexists [_] ].
Qed.

Lemma retry_loop_sends config net url options todo :
  forall attempt last s,
    exists t,
      trace (retry_loop config net todo attempt last url options s).2 = trace s ++ t
      /\ Forall (sends url (requestInit config options)) t.
Proof.
  destruct (valid_delay (init_timeout (requestInit config options))) eqn:Hd.
  2:{ intros attempt last s. rewrite retry_loop_refusals by exact Hd.
      destruct (after_refusals_trace config todo attempt s) as (t & Ht & _ & Hr & _).
      exists t. split; [exact Ht |]. apply Forall_forall. intros ev Hev.
      destruct ev as [ms | u i]; [exact I |].
      assert ((u, i) ∈ requests t) as Hin
        by (apply list_elem_of_omap; by exists (Fetch u i)).
      rewrite Hr in Hin. by apply elem_of_nil in Hin. }
  induction todo as [| todo IH]; intros attempt last s.
  - exists []. by rewrite app_nil_r.
  - destruct (attempt_success (net attempt)) as [[r d] |] eqn:Hs.
    + rewrite (retry_loop_success _ _ _ _ _ _ _ r d _ Hd) by done.
      eexists [_]. split; [reflexivity |]. by repeat constructor.
    + assert (exists e, attempt_error (net attempt) = Some e) as [e He].
      { unfold attempt_success in Hs. unfold attempt_error.
        destruct (result (net attempt)) as [e | r]; [eauto |].
        destruct (json r); [eauto | discriminate]. }
      rewrite (retry_loop_failure _ _ _ _ _ _ _ e _ Hd) by done.
      destruct (IH (S attempt) (Some e)
                  (after_failure config net url (requestInit config options) attempt s))
        as (t & Ht & Hall).
      rewrite Ht. unfold after_failure.
      destruct (Z.of_nat attempt <? retryAttempts config - 1)%Z;
        cbn [trace slept fetched]; rewrite <- !app_assoc;
        eexists; (split; [reflexivity |]); by repeat constructor.
Qed.




(** ** C9: which auth header is sent *)




(** ** C2: default headers and the caller's headers *)



(** ** C6: URL validation *)

Lemma parse_localhost_x :
  URL.new "http://localhost/x" None
  = Some (URL.mk "http" "" "" (Some (Host.Domain "localhost")) None
            (URL.Segments ["x"]) None None []).
Proof. reflexivity. Qed.

Lemma production_true env :
  NODE_ENV env = Some "production" -> production env = true.
Proof. intros H. unfold production. by apply bool_decide_eq_true. Qed.

Lemma production_false env :
  NODE_ENV env <> Some "production" -> production env = false.
Proof. intros H. unfold production. by apply bool_decide_eq_false. Qed.

(** The policy on the values that [validateUrl] compares: it rejects
    [http://localhost/x] when [NODE_ENV] is [production] and accepts it
    under any other [NODE_ENV]; it rejects, in every mode, a string that
    does not parse as a URL; in production it rejects every URL whose
    protocol is not [https:] and every URL whose [hostname] getter
    answers one of the four blocked names (for [::1] there is no such
    URL, see [validateUrl_ipv6_loopback]). *)
Theorem validateUrl_policy :
  (forall env, NODE_ENV env = Some "production" ->
               validateUrl env "http://localhost/x" = false)
  /\ (forall env, NODE_ENV env <> Some "production" ->
                  validateUrl env "http://localhost/x" = true)
  /\ (forall env url, URL.new url None = None -> validateUrl env url = false)
  /\ (forall env url parsed,
        NODE_ENV env = Some "production" ->
        URL.new url None = Some parsed ->
        URL.protocol parsed <> "https:" ->
        validateUrl env url = false)
  /\ (forall env url parsed,
        NODE_ENV env = Some "production" ->
        URL.new url None = Some parsed ->
        URL.hostname parsed ∈ ["localhost"; "127.0.0.1"; "0.0.0.0"; "::1"] ->
        validateUrl env url = false).
Proof.
  split; [| split; [| split; [| split]]].
  - intros env Hp. unfold validateUrl.
    by rewrite parse_localhost_x, (production_true _ Hp).
  - intros env Hp. unfold validateUrl.
    by rewrite parse_localhost_x, (production_false _ Hp).
  - intros env url Hn. unfold validateUrl. by rewrite Hn.
  - intros env url parsed Hp Hu Hs. unfold validateUrl.
    rewrite Hu, (production_true _ Hp).
    destruct (String.eqb_spec (URL.protocol parsed) "https:"); [done |].
    reflexivity.
  - intros env url parsed Hp Hu Hh. unfold validateUrl.
    rewrite Hu, (production_true _ Hp).
    destruct (negb (URL.protocol parsed =? "https:")%string); [done |].
    cbn [andb]. unfold blockedHosts. by rewrite bool_decide_eq_true_2.
Qed.

Lemma validateUrl_policy_witness :
  validateUrl Sample.production_env "http://localhost/x" = false
  /\ validateUrl Sample.development_env "http://localhost/x" = true
  /\ validateUrl Sample.development_env "api.github.com/user" = false
  /\ validateUrl Sample.production_env "http://api.github.com/user" = false
  /\ validateUrl Sample.production_env "https://127.0.0.1/admin" = false.
Proof.
  destruct validateUrl_policy as (H1 & H2 & H3 & H4 & H5).
  split; [apply H1; reflexivity |].
  split; [apply H2; discriminate |].
  split; [apply H3; reflexivity |].
  split.
  - eapply H4; [reflexivity | reflexivity | discriminate].
  - eapply H5; [reflexivity | reflexivity |].
    cbn. apply list_elem_of_further, list_elem_of_here.
Defined.

(** Outside production every URL that parses is accepted: loopback hosts
    are permitted and HTTPS is not enforced. *)
Lemma validateUrl_development env url parsed :
  NODE_ENV env <> Some "production" ->
  URL.new url None = Some parsed ->
  validateUrl env url = true.
Proof.
  intros Hp Hu. unfold validateUrl. rewrite Hu, (production_false _ Hp).
  cbn. by destruct (bool_decide _).
Qed.

(** C6, at the input where the code departs from it. [blockedHosts]
    lists [::1], the IPv6 loopback address, among the hosts to block, but
    the [hostname] of a URL whose host is an IPv6 address is the address
    between brackets: the URL [https://[::1]/x] is compared as [[::1]],
    matches no entry and is accepted in production. The other three
    entries are matched in every spelling the parser normalizes. *)
Remark validateUrl_ipv6_loopback :
  NODE_ENV Sample.production_env = Some "production"
  /\ "::1" ∈ blockedHosts
  /\ URL.host <$> URL.new "https://[::1]/x" None
     = Some (Some (Host.IPv6 [0; 0; 0; 0; 0; 0; 0; 1]%N))
  /\ URL.hostname <$> URL.new "https://[::1]/x" None = Some "[::1]"
  /\ validateUrl Sample.production_env "https://[::1]/x" = true
  /\ validateUrl Sample.production_env "https://LOCALHOST/x" = false
  /\ validateUrl Sample.production_env "https://127.1/x" = false
  /\ validateUrl Sample.production_env "https://0x7f000001/x" = false.
Proof.
  split; [reflexivity |].
  split; [unfold blockedHosts; do 3 apply list_elem_of_further; apply list_elem_of_here |].
  repeat split.
Qed.

(** ** The query string: decoding undoes encoding *)

Module UrlEncodedFacts.

Lemma append_cons c a b : String c a +:+ b = String c (a +:+ b).
Proof. reflexivity. Qed.

Lemma append_nil b : "" +:+ b = b.
Proof. reflexivity. Qed.

Lemma map_app f a b : Str.map f (a +:+ b) = Str.map f a +:+ Str.map f b.
Proof.
  induction a as [| c a IH]; [done |].
  cbn [Str.map]. by rewrite !append_cons, <- IH.
Qed.

Lemma existsb_app p a b :
  Str.existsb p (a +:+ b) = Str.existsb p a || Str.existsb p b.
Proof.
  induction a as [| c a IH]; [done |].
  rewrite append_cons. cbn [Str.existsb]. rewrite IH. by destruct (p c).
Qed.

Lemma decode_other c r :
  Ascii.eqb c "%" = false ->
  Percent.decode (String c r) = String c (Percent.decode r).
Proof.
  intros Hc. cbn [Percent.decode]. rewrite Hc.
  by destruct r as [| a [| b r2]].
Qed.

(** One byte, encoded then decoded, in front of any string. *)
Lemma parse_serialize_byte c r :
  Percent.decode
    (Str.map UrlEncoded.plus_to_space (UrlEncoded.serialize_byte c) +:+ r)
  = String c (Percent.decode r).
Proof.
  destruct c as [[] [] [] [] [] [] [] []];
    first [ reflexivity | by apply decode_other ].
Qed.

Lemma parse_serialize_string s :
  UrlEncoded.parse_string (UrlEncoded.serialize_string s) = s.
Proof.
  unfold UrlEncoded.parse_string, UrlEncoded.serialize_string.
  induction s as [| c s IH]; [done |].
  cbn [Str.concat_map]. rewrite map_app, parse_serialize_byte. by rewrite IH.
Qed.

(** An encoded string holds neither [=] nor [&]. *)
Lemma serialize_byte_clean c :
  Str.existsb (one_of "=&") (UrlEncoded.serialize_byte c) = false.
Proof. by destruct c as [[] [] [] [] [] [] [] []]. Qed.

Lemma serialize_string_clean s :
  Str.existsb (one_of "=&") (UrlEncoded.serialize_string s) = false.
Proof.
  unfold UrlEncoded.serialize_string.
  induction s as [| c s IH]; [done |].
  cbn [Str.concat_map]. by rewrite existsb_app, serialize_byte_clean, IH.
Qed.

Lemma existsb_weaken (p q : ascii -> bool) s :
  (forall c, q c = true -> p c = true) ->
  Str.existsb p s = false -> Str.existsb q s = false.
Proof.
  intros Hpq. induction s as [| c s IH]; [done |]. cbn.
  intros [Hc Hs]%orb_false_elim. rewrite (IH Hs), orb_false_r.
  destruct (q c) eqn:Hq; [| done]. by rewrite (Hpq c Hq) in Hc.
Qed.

Lemma break_at stop a c b :
  Str.existsb stop a = false -> stop c = true ->
  Str.break stop (a +:+ String c b) = (a, String c b).
Proof.
  intros Ha Hc. induction a as [| x a IH].
  - rewrite append_nil. cbn [Str.break]. by rewrite Hc.
  - cbn in Ha. apply orb_false_elim in Ha as [Hx Ha].
    rewrite append_cons. cbn [Str.break]. by rewrite Hx, (IH Ha).
Qed.

Lemma no_equals s :
  Str.existsb (Ascii.eqb "=") (UrlEncoded.serialize_string s) = false.
Proof.
  apply (existsb_weaken (one_of "=&")); [| apply serialize_string_clean].
  intros c Hc. apply Ascii.eqb_eq in Hc as <-. reflexivity.
Qed.

Lemma no_ampersand s :
  Str.existsb (Ascii.eqb "&") (UrlEncoded.serialize_string s) = false.
Proof.
  apply (existsb_weaken (one_of "=&")); [| apply serialize_string_clean].
  intros c Hc. apply Ascii.eqb_eq in Hc as <-. reflexivity.
Qed.

Lemma parse_serialize_pair kv :
  UrlEncoded.parse_pair (UrlEncoded.serialize_pair kv) = kv.
Proof.
  destruct kv as [k v]. unfold UrlEncoded.parse_pair, UrlEncoded.serialize_pair.
  cbn [fst snd]. rewrite append_cons, append_nil, break_at.
  - by rewrite !parse_serialize_string.
  - apply no_equals.
  - reflexivity.
Qed.

Lemma serialize_pair_clean kv :
  Str.existsb (Ascii.eqb "&") (UrlEncoded.serialize_pair kv) = false.
Proof.
  unfold UrlEncoded.serialize_pair. rewrite !existsb_app. cbn [Str.existsb].
  by rewrite !no_ampersand.
Qed.

Lemma serialize_pair_nonempty kv :
  Str.is_empty (UrlEncoded.serialize_pair kv) = false.
Proof.
  unfold UrlEncoded.serialize_pair.
  by destruct (UrlEncoded.serialize_string kv.1).
Qed.

Lemma split_clean sep a :
  Str.existsb (Ascii.eqb sep) a = false -> Str.split sep a = [a].
Proof.
  induction a as [| c a IH]; [done |]. cbn.
  intros [Hc Ha]%orb_false_elim. rewrite Ascii.eqb_sym, Hc. by rewrite (IH Ha).
Qed.

Lemma split_app sep a b :
  Str.existsb (Ascii.eqb sep) a = false ->
  Str.split sep (a +:+ String sep b) = a :: Str.split sep b.
Proof.
  induction a as [| c a IH].
  - intros _. rewrite append_nil. cbn [Str.split]. by rewrite Ascii.eqb_refl.
  - cbn [Str.existsb]. intros [Hc Ha]%orb_false_elim.
    rewrite append_cons. cbn [Str.split].
    rewrite Ascii.eqb_sym, Hc. by rewrite (IH Ha).
Qed.

Lemma join_cons sep x y ys :
  Str.join sep (x :: y :: ys) = x +:+ sep +:+ Str.join sep (y :: ys).
Proof. reflexivity. Qed.

Lemma split_join (xs : list string) :
  xs <> [] ->
  Forall (fun x => Str.existsb (Ascii.eqb "&") x = false) xs ->
  Str.split "&" (Str.join "&" xs) = xs.
Proof.
  induction xs as [| x xs IH]; [done |]. intros _ Hall.
  apply Forall_cons in Hall as [Hx Hxs].
  destruct xs as [| y ys]; [by apply split_clean |].
  rewrite join_cons, append_cons, append_nil, split_app by done.
  by rewrite IH.
Qed.

(** Decoding a query string gives back the pairs it was made from, in
    their order. *)
Lemma parse_serialize (l : list (string * string)) :
  UrlEncoded.parse (UrlEncoded.serialize l) = l.
Proof.
  destruct l as [| kv l]; [reflexivity |].
  unfold UrlEncoded.parse, UrlEncoded.serialize.
  rewrite split_join.
  - generalize (kv :: l). intros l'. induction l' as [| x l' IH]; [done |].
    cbn [List.map List.filter]. rewrite serialize_pair_nonempty. cbn [negb List.map].
    by rewrite parse_serialize_pair, IH.
  - discriminate.
  - apply Forall_forall. intros x Hx. apply list_elem_of_In, in_map_iff in Hx as (y & <- & _).
    apply serialize_pair_clean.
Qed.

Lemma serialize_nonempty (l : list (string * string)) :
  l <> [] -> Str.is_empty (UrlEncoded.serialize l) = false.
Proof.
  destruct l as [| kv l]; [done |]. intros _. unfold UrlEncoded.serialize.
  cbn [List.map Str.join]. pose proof (serialize_pair_nonempty kv) as Hne.
  destruct (UrlEncoded.serialize_pair kv); [done |].
  by destruct (List.map UrlEncoded.serialize_pair l).
Qed.

End UrlEncodedFacts.

(** ** The URL parser on a plain path *)

Module URLFacts.

Import UrlEncodedFacts.

Lemma existsb_drop_while_end p q s :
  Str.existsb p s = false -> Str.existsb p (Str.drop_while_end q s) = false.
Proof.
  induction s as [| c s IH]; [done |]. cbn [Str.existsb Str.drop_while_end].
  intros [Hc Hs]%orb_false_elim.
  destruct (q c && Str.is_empty (Str.drop_while_end q s)); [done |].
  cbn [Str.existsb]. by rewrite Hc, (IH Hs).
Qed.

Lemma filter_keeps_all q s :
  Str.existsb (fun c => negb (q c)) s = false -> Str.filter q s = s.
Proof.
  induction s as [| c s IH]; [done |]. cbn [Str.existsb Str.filter].
  intros [Hc Hs]%orb_false_elim. apply negb_false_iff in Hc.
  by rewrite Hc, (IH Hs).
Qed.

(** What [trim] leaves of a plain path: its leading slash, then neither
    a second slash nor any [?] or [#]. *)
Lemma trim_plain p :
  plain_path p = true ->
  exists r,
    URL.trim p = String "/" r
    /\ Str.existsb (one_of "?#") r = false
    /\ match r with
       | String c _ => URL.is_slash true c = false
       | EmptyString => True
       end.
Proof.
  unfold plain_path. destruct p as [| c0 r]; [done |].
  destruct (Ascii.eqb_spec c0 "/") as [-> | Hne].
  2:{ destruct c0 as [[] [] [] [] [] [] [] []]; done. }
  intros [Hhead Hbody]%andb_true_iff.
  apply negb_true_iff in Hhead, Hbody.
  exists (Str.drop_while_end is_c0_or_space r).
  assert (Hnt : Str.existsb is_tab_or_newline r = false).
  { apply (existsb_weaken _ _ _ (fun c H => orb_true_intro _ _ (or_intror H)) Hbody). }
  assert (Hq : Str.existsb (one_of "?#") r = false).
  { apply (existsb_weaken _ _ _ (fun c H => orb_true_intro _ _ (or_introl H)) Hbody). }
  split; [| split].
  - unfold URL.trim. cbn [Str.drop_while]. change (is_c0_or_space "/") with false.
    cbn [Str.drop_while_end andb Str.filter].
    change (negb (is_tab_or_newline "/")) with true. cbn iota. f_equal.
    apply filter_keeps_all.
    apply existsb_drop_while_end.
    apply (existsb_weaken is_tab_or_newline); [| done].
    intros c Hc. by apply negb_true_iff, negb_false_iff in Hc.
  - by apply existsb_drop_while_end.
  - destruct r as [| c r']; [done |]. cbn [Str.drop_while_end].
    destruct (is_c0_or_space c && _); [done |].
    unfold URL.is_slash. unfold one_of in Hhead. cbn in Hhead.
    rewrite orb_false_r in Hhead. exact Hhead.
Qed.

(** Without [?] and [#], the path state reads its input to the end. *)
Lemma path_state_reads_all special s :
  Str.existsb (one_of "?#") s = false ->
  forall buffer path, (URL.path_state special s buffer path).2 = "".
Proof.
  induction s as [| c s IH]; [done |]. cbn [Str.existsb URL.path_state].
  intros [Hc Hs]%orb_false_elim buffer path. rewrite Hc.
  destruct (URL.is_slash special c); by apply IH.
Qed.

Lemma special_not_file scheme :
  URL.is_special scheme = true -> String.eqb scheme "file" = false.
Proof.
  intros Hs. destruct (String.eqb_spec scheme "file") as [-> | Hne]; [| done].
  by vm_compute in Hs.
Qed.

Lemma from_authority_segments scheme s u :
  URL.from_authority scheme s = Some u ->
  URL.scheme u = scheme /\ exists segs, URL.path u = URL.Segments segs.
Proof.
  unfold URL.from_authority.
  destruct (Str.break _ s) as [auth rest].
  destruct (URL.authority_parse scheme auth) as [[[[us pw] h] p] |]; [| done].
  cbn [mbind option_bind].
  destruct (match rest with String _ _ => _ | EmptyString => _ end) as [segs tail].
  destruct (URL.tail_parse _ tail) as [q f].
  intros [= <-]. cbn. eauto.
Qed.

(** A URL of a special scheme has a list of segments as its path. *)
Lemma special_segments input u :
  URL.new input None = Some u ->
  URL.is_special (URL.scheme u) = true ->
  exists segs, URL.path u = URL.Segments segs.
Proof.
  unfold URL.new, URL.basic_parse.
  destruct (URL.split_scheme (URL.trim input)) as [[scheme rest] |]; [| done].
  unfold URL.absolute.
  destruct (String.eqb scheme "file"); [done |].
  destruct (URL.is_special scheme) eqn:Hsp.
  - intros Hu _. by apply from_authority_segments in Hu as [_ ?].
  - destruct (Str.starts_with "//" rest).
    { intros Hu Hs. apply from_authority_segments in Hu as [<- _]. congruence. }
    destruct (Str.starts_with "/" rest).
    + destruct (URL.path_state _ _ _ _) as [segs tail].
      destruct (URL.tail_parse _ tail) as [q f].
      intros [= <-]. cbn. congruence.
    + destruct (Str.break _ rest) as [p tail].
      destruct (URL.tail_parse _ tail) as [q f].
      intros [= <-]. cbn. congruence.
Qed.

(** A plain path against a base of a special scheme: the scheme, the
    credentials, the host and the port are those of the base, and there
    is neither query nor fragment. *)
Lemma parse_plain_path p base :
  plain_path p = true ->
  URL.is_special (URL.scheme base) = true ->
  (exists bp, URL.path base = URL.Segments bp) ->
  exists segs,
    URL.basic_parse p (Some base)
    = Some (URL.mk (URL.scheme base) (URL.username base) (URL.password base)
              (URL.host base) (URL.port base) (URL.Segments segs) None None []).
Proof.
  intros Hp Hsp [bp Hbp].
  destruct (trim_plain p Hp) as (r & Htrim & Hq & Hhead).
  unfold URL.basic_parse. rewrite Htrim.
  change (URL.split_scheme (String "/" r)) with (@None (string * string)).
  cbn iota. rewrite Hbp, (special_not_file _ Hsp).
  unfold URL.relative. rewrite Hsp.
  change (URL.is_slash true "/") with true. cbn iota.
  pose proof (path_state_reads_all true r Hq "" []) as Htail.
  destruct (URL.path_state true r "" []) as [segs tail]. cbn in Htail. subst tail.
  exists segs.
  destruct r as [| c2 r2]; [reflexivity |].
  rewrite Hhead. cbn [andb].
  assert (Ascii.eqb c2 "/" = false) as ->.
  { unfold URL.is_slash in Hhead. by apply orb_false_elim in Hhead as [? _]. }
  reflexivity.
Qed.

(** Appending the entries of a query, one after the other. *)
Lemma append_entries (entries : list (string * string)) : forall u,
  let u' := fold_left (fun u kv => URL.searchParams_append u kv.1 kv.2) entries u in
  URL.scheme u' = URL.scheme u
  /\ URL.host u' = URL.host u
  /\ URL.port u' = URL.port u
  /\ URL.fragment u' = URL.fragment u
  /\ URL.searchParams u' = URL.searchParams u ++ entries
  /\ URL.query u'
     = if Str.is_empty_list entries then URL.query u
       else Some (UrlEncoded.serialize (URL.searchParams u ++ entries)).
Proof.
  induction entries as [| kv entries IH]; intros u.
  - cbn. by rewrite app_nil_r.
  - cbn [fold_left].
    destruct (IH (URL.searchParams_append u kv.1 kv.2))
      as (Hs & Hh & Hp & Hf & Hl & Hq).
    cbn zeta. rewrite Hs, Hh, Hp, Hf, Hl, Hq.
    unfold URL.searchParams_append. cbn [URL.scheme URL.host URL.port URL.fragment
      URL.searchParams URL.query Str.is_empty_list].
    rewrite serialize_nonempty by (by destruct (URL.searchParams u)).
    rewrite <- app_assoc. cbn [app]. destruct kv as [k v]. cbn [fst snd].
    repeat split. by destruct entries.
Qed.

Lemma origin_same u u' :
  URL.scheme u' = URL.scheme u ->
  URL.host u' = URL.host u ->
  URL.port u' = URL.port u ->
  URL.origin u' = URL.origin u.
Proof.
  intros Hs Hh Hp. unfold URL.origin, URL.hostname. by rewrite Hs, Hh, Hp.
Qed.

End URLFacts.

(** ** C3: the URL that [buildUrl] returns *)

(** C3, as stated, fails. A path that is itself an absolute URL takes
    the place of the base, origin included; and a path that brings a
    query keeps it in front of the pairs of the query map. *)
Lemma buildUrl_path_decides_origin_and_query :
  (buildUrl (Sample.github 60) "https://evil.example/x" None
   = inr "https://evil.example/x"
   /\ URL.origin <$> URL.new "https://evil.example/x" None
      = Some "https://evil.example"
   /\ URL.origin <$> URL.new (baseUrl (Sample.github 60)) None
      = Some "https://api.github.com")
  /\ (buildUrl (Sample.github 60) "/search?q=a" (Some [("page", "2")])
      = inr "https://api.github.com/search?q=a&page=2"
      /\ URL.searchParams <$> URL.new "https://api.github.com/search?q=a&page=2" None
         = Some [("q", "a"); ("page", "2")]).
Proof. repeat split. Qed.

(** C3, amended. Let the base URL parse as a URL of a special scheme
    ([http], [https], ...), and let the path be plain: one leading slash,
    not followed by a second slash or a backslash, and no [?], [#], tab
    or newline. Then [buildUrl] returns the serialization of a URL whose
    origin is the origin of the base, which has no fragment, and whose
    query is the form-urlencoded text of the entries of the query map in
    their order (no query when there is none); decoding that query gives
    back exactly these entries. *)
Theorem buildUrl_plain_path config p (q : option (list (string * string))) base :
  URL.new (baseUrl config) None = Some base ->
  URL.is_special (URL.scheme base) = true ->
  plain_path p = true ->
  exists u,
    buildUrl_object config p q = inr u
    /\ buildUrl config p q = inr (URL.toString u)
    /\ URL.origin u = URL.origin base
    /\ URL.fragment u = None
    /\ URL.searchParams u = default [] q
    /\ URL.query u
       = (if Str.is_empty_list (default [] q) then None
          else Some (UrlEncoded.serialize (default [] q)))
    /\ UrlEncoded.parse (default "" (URL.query u)) = default [] q.
Proof.
  intros Hbase Hsp Hp.
  destruct (URLFacts.parse_plain_path p base Hp Hsp
              (URLFacts.special_segments _ _ Hbase Hsp)) as [segs Hparse].
  unfold buildUrl, buildUrl_object, URL.new.
  unfold URL.new in Hbase. rewrite Hbase. cbn [mbind option_bind]. rewrite Hparse.
  set (u0 := URL.mk _ _ _ _ _ _ _ _ _).
  destruct q as [entries |]; cbn [default from_option].
  - destruct (URLFacts.append_entries entries u0) as (Hs & Hh & Hpo & Hf & Hl & Hq).
    eexists. split; [reflexivity |]. split; [reflexivity |].
    split; [by apply URLFacts.origin_same |].
    split; [exact Hf |]. split; [exact Hl |].
    rewrite Hq. cbn [URL.searchParams URL.query u0 app].
    split; [reflexivity |].
    destruct entries as [| kv entries]; [reflexivity |].
    cbn [Str.is_empty_list default from_option].
    apply UrlEncodedFacts.parse_serialize.
  - exists u0. repeat split.
Qed.

Lemma buildUrl_plain_path_witness :
  exists u,
    buildUrl_object (Sample.github 60) "/search/repositories"
      (Some [("q", "rocq & coq"); ("per_page", "10")]) = inr u
    /\ buildUrl (Sample.github 60) "/search/repositories"
         (Some [("q", "rocq & coq"); ("per_page", "10")])
       = inr "https://api.github.com/search/repositories?q=rocq+%26+coq&per_page=10"
    /\ URL.origin u = "https://api.github.com"
    /\ URL.searchParams u = [("q", "rocq & coq"); ("per_page", "10")]
    /\ UrlEncoded.parse (default "" (URL.query u))
       = [("q", "rocq & coq"); ("per_page", "10")].
Proof.
  destruct (buildUrl_plain_path (Sample.github 60) "/search/repositories"
              (Some [("q", "rocq & coq"); ("per_page", "10")])
              (URL.mk "https" "" "" (Some (Host.Domain "api.github.com")) None
                 (URL.Segments [""]) None None []))
    as (u & Hobj & Hstr & Ho & _ & Hl & _ & Hparse);
    [reflexivity | reflexivity | reflexivity |].
  exists u. split; [exact Hobj |]. split.
  - rewrite Hstr. f_equal. injection Hobj as <-. reflexivity.
  - split; [exact Ho |]. split; [exact Hl | exact Hparse].
Defined.

(** The string that [buildUrl] returned above parses back to a URL of
    the same origin and the same pairs. *)
Example buildUrl_result_parses_back :
  (fun u => (URL.origin u, URL.searchParams u))
    <$> URL.new "https://api.github.com/search/repositories?q=rocq+%26+coq&per_page=10" None
  = Some ("https://api.github.com", [("q", "rocq & coq"); ("per_page", "10")]).
Proof. reflexivity. Qed.

(** * Further properties *)

(** ** core/config.ts *)

Lemma last_char_append (p s : string) :
  s <> "" -> last_char (p +:+ s) = last_char s.
Proof.
  intros Hs. induction p as [| c p IH]; [reflexivity |].
  change (String c p +:+ s) with (String c (p +:+ s)). cbn [last_char].
  destruct (p +:+ s) eqn:E; [| exact IH].
  destruct p; [by destruct s | discriminate].
Qed.

(** The names that the configurations read from [process.env] are names
    of the environment alone: whatever the prefix, none is a name of
    [Object.prototype], and neither is a name of the registry,
    [NODE_ENV] or [DOCKER_HOST]. So the lookup in the map of the
    environment is what [process.env[name]] answers for them. *)
Lemma environment_names_are_own :
  (forall prefix suffix, suffix ∈ config_suffixes ->
                         (prefix +:+ suffix) ∉ inherited_names)
  /\ Forall (fun p => Forall (fun v => v ∉ inherited_names)
                        (Registry.requiredEnvVars p))
       Registry.PLATFORM_REGISTRY
  /\ ("NODE_ENV" ∉ inherited_names)
  /\ ("DOCKER_HOST" ∉ inherited_names).
Proof.
  split; [| split; [| split]].
  - intros prefix suffix Hs Hin.
    assert (Hl : last_char (prefix +:+ suffix) = last_char suffix).
    { apply last_char_append. intros ->.
      unfold config_suffixes in Hs.
      repeat (apply elem_of_cons in Hs as [Hs | Hs]; [discriminate |]).
      by apply elem_of_nil in Hs. }
    unfold config_suffixes in Hs. unfold inherited_names in Hin.
    repeat (apply elem_of_cons in Hs as [-> | Hs];
            [repeat (apply elem_of_cons in Hin as [Hin | Hin];
                     [rewrite Hin in Hl; discriminate |]);
             by apply elem_of_nil in Hin |]).
    by apply elem_of_nil in Hs.
  - apply (bool_decide_unpack _). by vm_compute.
  - apply (bool_decide_unpack _). by vm_compute.
  - apply (bool_decide_unpack _). by vm_compute.
Qed.

Lemma truthy_option_string (o : option string) :
  truthy o = true <-> exists v, o = Some v /\ v <> "".
Proof.
  destruct o as [[| c v] |]; cbn.
  - split; [done |]. by intros (v & [= <-] & Hne).
  - split; [| done]. intros _. eexists. split; [reflexivity | discriminate].
  - split; [done |]. by intros (v & [=] & _).
Qed.

Lemma or_else_Z (o : option Z) (d : Z) :
  d <> 0%Z ->
  or_else o d <> 0%Z
  /\ (truthy o = false -> or_else o d = d)
  /\ (forall n, o = Some n -> n <> 0%Z -> or_else o d = n).
Proof.
  intros Hd. unfold or_else. destruct o as [n |]; cbn; [| done].
  unfold truthy, truthy_Z. destruct (Z.eqb_spec n 0); cbn.
  - split; [done |]. split; [done |]. intros m [= <-] Hne. lia.
  - split; [done |]. split; [done |]. by intros m [= <-] _.
Qed.

(** Whatever the options, the configuration [createPlatformConfig]
    returns has a non-empty version and a timeout, a number of attempts
    and a rate limit that are not 0: an option that is absent, empty or 0
    gives way to the default ([v1], 30000, 3, 60), and any other option
    is kept as it is, a negative number included: the defaults are no
    lower bounds. *)
Theorem createPlatformConfig_defaults env name baseUrl envPrefix options :
  let c := createPlatformConfig env name baseUrl envPrefix options in
  (version c <> "" /\ timeout c <> 0 /\ retryAttempts c <> 0
   /\ rateLimitPerMinute c <> 0)%Z
  /\ (truthy (opt_version options) = false -> version c = "v1")
  /\ (truthy (opt_timeout options) = false -> timeout c = 30000%Z)
  /\ (truthy (opt_retryAttempts options) = false -> retryAttempts c = 3%Z)
  /\ (truthy (opt_rateLimitPerMinute options) = false ->
      rateLimitPerMinute c = 60%Z)
  /\ (forall v, opt_version options = Some v -> v <> "" -> version c = v)
  /\ (forall n, opt_timeout options = Some n -> n <> 0%Z -> timeout c = n)
  /\ (forall n, opt_retryAttempts options = Some n -> n <> 0%Z ->
                retryAttempts c = n)
  /\ (forall n, opt_rateLimitPerMinute options = Some n -> n <> 0%Z ->
                rateLimitPerMinute c = n).
Proof.
  cbn zeta. cbn [createPlatformConfig version timeout retryAttempts rateLimitPerMinute].
  pose proof (or_else_Z (opt_timeout options) 30000) as (T1 & T2 & T3); [done |].
  pose proof (or_else_Z (opt_retryAttempts options) 3) as (R1 & R2 & R3); [done |].
  pose proof (or_else_Z (opt_rateLimitPerMinute options) 60) as (L1 & L2 & L3); [done |].
  repeat split; try done.
  - unfold or_else. destruct (opt_version options) as [[| c v] |]; by cbn.
  - unfold or_else. destruct (opt_version options) as [[| c v] |]; by cbn.
  - intros v Hv Hne. unfold or_else. rewrite Hv. by destruct v.
Qed.

Lemma missing_fold config (required : list CredentialKey) : forall acc,
  fold_left
    (fun missing key =>
       if negb (truthy (credential (credentials config) key))
       then missing ++ [key_name key] else missing)
    required acc
  = acc ++ List.map key_name
             (List.filter
                (fun key => negb (truthy (credential (credentials config) key)))
                required).
Proof.
  induction required as [| k required IH]; intros acc; cbn.
  - by rewrite app_nil_r.
  - rewrite IH.
    destruct (negb (truthy (credential (credentials config) k))); cbn; [| done].
    by rewrite <- app_assoc.
Qed.

Lemma validateCredentials_valid config (required : list CredentialKey) :
  CredentialCheck.valid (validateCredentials config required) = true
  <-> forall key, key ∈ required ->
        exists v, credential (credentials config) key = Some v /\ v <> "".
Proof.
  unfold validateCredentials. cbn [CredentialCheck.valid].
  rewrite missing_fold. cbn [app].
  rewrite Nat.eqb_eq, length_zero_iff_nil.
  induction required as [| k required IH]; cbn.
  - split; [intros _ key Hin; by apply elem_of_nil in Hin | done].
  - destruct (truthy (credential (credentials config) k)) eqn:Hk; cbn.
    + rewrite IH. split.
      * intros Hall key [-> | Hin]%elem_of_cons; [| by apply Hall].
        by apply truthy_option_string.
      * intros Hall key Hin. apply Hall. by apply elem_of_cons; right.
    + split; [done |]. intros Hall.
      specialize (Hall k (list_elem_of_here _ _)).
      apply truthy_option_string in Hall. congruence.
Qed.

(** [missing] lists, in the order of [required] and as often as they
    occur there, the names of the required credentials that are unset or
    empty; [valid] holds exactly when every required credential is a
    non-empty string. With nothing required, every configuration is
    valid. *)
Theorem validateCredentials_missing config (required : list CredentialKey) :
  CredentialCheck.missing (validateCredentials config required)
  = List.map key_name
      (List.filter (fun key => negb (truthy (credential (credentials config) key)))
         required)
  /\ (CredentialCheck.valid (validateCredentials config required) = true
      <-> forall key, key ∈ required ->
            exists v, credential (credentials config) key = Some v /\ v <> "")
  /\ (CredentialCheck.valid (validateCredentials config required) = true
      <-> CredentialCheck.missing (validateCredentials config required) = [])
  /\ CredentialCheck.valid (validateCredentials config []) = true.
Proof.
  split; [| split; [apply validateCredentials_valid | split; [| reflexivity]]].
  - unfold validateCredentials. cbn [CredentialCheck.missing].
    by rewrite missing_fold.
  - unfold validateCredentials. cbn [CredentialCheck.valid CredentialCheck.missing].
    by rewrite Nat.eqb_eq, length_zero_iff_nil.
Qed.

(** What is logged does not depend on the secrets: two configurations
    that agree outside their credentials, and on which credentials are
    set to a non-empty string, are logged alike; each credential is
    logged as [[REDACTED]] when it is a non-empty string and is left out
    otherwise; the other fields are logged as they are. *)
Theorem sanitizeConfigForLogging_hides_secrets c1 c2 :
  name c1 = name c2 -> enabled c1 = enabled c2 -> baseUrl c1 = baseUrl c2 ->
  version c1 = version c2 -> timeout c1 = timeout c2 ->
  retryAttempts c1 = retryAttempts c2 ->
  rateLimitPerMinute c1 = rateLimitPerMinute c2 ->
  (forall key, truthy (credential (credentials c1) key)
               = truthy (credential (credentials c2) key)) ->
  sanitizeConfigForLogging c1 = sanitizeConfigForLogging c2
  /\ (forall x, x ∈ [Sanitized.apiKey (Sanitized.creds (sanitizeConfigForLogging c1));
                     Sanitized.apiSecret (Sanitized.creds (sanitizeConfigForLogging c1));
                     Sanitized.accessToken (Sanitized.creds (sanitizeConfigForLogging c1));
                     Sanitized.refreshToken (Sanitized.creds (sanitizeConfigForLogging c1));
                     Sanitized.webhookSecret (Sanitized.creds (sanitizeConfigForLogging c1))] ->
                x = None \/ x = Some "[REDACTED]")
  /\ Sanitized.baseUrl (sanitizeConfigForLogging c1) = baseUrl c1
  /\ Sanitized.rateLimitPerMinute (sanitizeConfigForLogging c1) = rateLimitPerMinute c1.
Proof.
  intros Hn He Hb Hv Ht Hr Hl Hc. split; [| split; [| done]].
  - unfold sanitizeConfigForLogging, redact.
    rewrite Hn, He, Hb, Hv, Ht, Hr, Hl.
    pose proof (Hc KeyApiKey) as H1. pose proof (Hc KeyApiSecret) as H2.
    pose proof (Hc KeyAccessToken) as H3. pose proof (Hc KeyRefreshToken) as H4.
    pose proof (Hc KeyWebhookSecret) as H5. cbn in H1, H2, H3, H4, H5.
    by rewrite H1, H2, H3, H4, H5.
  - intros x Hx. cbn in Hx. unfold redact in Hx.
    repeat (apply elem_of_cons in Hx as [-> | Hx];
            [match goal with |- context [truthy ?o] => destruct (truthy o) end; auto |]).
    by apply elem_of_nil in Hx.
Qed.

(** ** The retry loop against any network *)

Lemma attempt_outcome (x : Exchange) :
  (exists r d, attempt_success x = Some (r, d))
  \/ (attempt_success x = None /\ exists e, attempt_error x = Some e).
Proof.
  unfold attempt_success, attempt_error.
  destruct (result x) as [e | r]; [right; eauto |].
  destruct (json r) as [e | d]; [right; eauto | left; eauto].
Qed.






(** With no attempt configured ([retryAttempts] at most 0), a validated
    call sends nothing and throws [Request failed after retries]; the
    rate-limit check has run all the same and has taken one unit of the
    limiter. *)
Theorem request_without_attempts env config net options url s :
  buildUrl config (HttpRequestOptions.path options) (HttpRequestOptions.query options)
  = inr url ->
  validateUrl env url = true ->
  (retryAttempts config <= 0)%Z ->
  request env config net options s
  = (inl (Error "Request failed after retries"), (checkRateLimit s).2)
  /\ requests (trace (checkRateLimit s).2) = requests (trace s)
  /\ (remaining (rateLimiter (checkRateLimit s).2) = limit (rateLimiter s) - 1
      \/ remaining (rateLimiter (checkRateLimit s).2)
         = remaining (rateLimiter s) - 1)%Z.
Proof.
  intros Hb Hv HR. rewrite (request_valid _ _ _ _ _ _ Hb Hv).
  replace (Z.to_nat (retryAttempts config)) with 0%nat by lia.
  split; [reflexivity |]. split.
  - destruct (checkRateLimit_trace s) as (t & -> & Ht).
    by rewrite requests_app, Ht, app_nil_r.
  - destruct (check_remaining s) as [_ [H | [_ H]]]; auto.
Qed.

(** A base URL that does not parse makes every call throw the
    [TypeError] of the [URL] constructor, whatever the path, before the
    rate-limit check and before any request: the state is unchanged. *)
Theorem request_invalid_base env config net options s :
  URL.new (baseUrl config) None = None ->
  buildUrl config (HttpRequestOptions.path options) (HttpRequestOptions.query options)
  = inl (TypeError "Invalid URL")
  /\ request env config net options s = (inl (TypeError "Invalid URL"), s).
Proof.
  intros Hbase.
  assert (buildUrl config (HttpRequestOptions.path options)
            (HttpRequestOptions.query options) = inl (TypeError "Invalid URL")) as Hb.
  { unfold buildUrl, buildUrl_object, URL.new. unfold URL.new in Hbase.
    by rewrite Hbase. }
  split; [exact Hb |]. unfold request. by rewrite Hb.
Qed.

(** ** The rate limiter, for any limit *)

Lemma checks_app gaps1 gaps2 s :
  checks (gaps1 ++ gaps2) s = checks gaps2 (checks gaps1 s).
Proof. apply fold_left_app. Qed.

(** Calls that arrive while the window is open and has room pass
    without a timer, each taking one unit. *)
Lemma checks_pass (gaps : list Z) : forall s,
  Forall (fun d => 0 <= d)%Z gaps ->
  (now s + elapsed_time gaps <= resetAt (rateLimiter s))%Z ->
  (Z.of_nat (length gaps) <= remaining (rateLimiter s))%Z ->
  checks gaps s
  = {| now := now s + elapsed_time gaps;
       rateLimiter := {| remaining := remaining (rateLimiter s) - Z.of_nat (length gaps);
                         limit := limit (rateLimiter s);
                         resetAt := resetAt (rateLimiter s) |};
       trace := trace s |}.
Proof.
  induction gaps as [| d gaps IH]; intros s Hpos Hwin Hroom.
  - cbn. destruct s as [n [r l ra] t]. cbn. f_equal; [lia | f_equal; lia].
  - apply Forall_cons in Hpos as [Hd Hpos].
    cbn [elapsed_time fold_right] in Hwin.
    change (fold_right Z.add 0%Z gaps) with (elapsed_time gaps) in Hwin.
    assert (0 <= elapsed_time gaps)%Z as Hsum.
    { clear -Hpos. induction Hpos; cbn; [lia |].
      change (fold_right Z.add 0%Z l) with (elapsed_time l). lia. }
    cbn [length] in Hroom.
    cbn [checks fold_left].
    change (fold_left _ gaps ?s0) with (checks gaps s0).
    rewrite check_pass by (cbn; lia).
    rewrite IH by (cbn; (done || lia)).
    cbn [snd now rateLimiter trace remaining limit resetAt advance elapsed_time
         fold_right length].
    change (fold_right Z.add 0%Z gaps) with (elapsed_time gaps).
    f_equal; [lia | f_equal; lia].
Qed.

(** A client with limit [L], built at [t0]. Calls that reach the
    rate-limit check within the first 60 seconds pass without a timer as
    long as there are at most [L] of them, each leaving one unit less;
    call number [L + 1], still within these 60 seconds, sleeps until
    [resetAt] and leaves [remaining = L - 1]. *)
Theorem rate_limit_first_window config t0 (gaps : list Z) d :
  Forall (fun d => 0 <= d)%Z gaps ->
  (0 <= d)%Z ->
  (elapsed_time gaps + d <= 60000)%Z ->
  (Z.of_nat (length gaps) <= rateLimitPerMinute config)%Z ->
  let s := checks gaps (constructor config t0) in
  let s' := (checkRateLimit (advance d s)).2 in
  trace s = []
  /\ now s = (t0 + elapsed_time gaps)%Z
  /\ remaining (rateLimiter s)
     = (rateLimitPerMinute config - Z.of_nat (length gaps))%Z
  /\ (Z.of_nat (length gaps) = rateLimitPerMinute config ->
      trace s' = [Sleep (60000 - elapsed_time gaps - d)]
      /\ now s' = (t0 + 60000)%Z
      /\ remaining (rateLimiter s') = (rateLimitPerMinute config - 1)%Z).
Proof.
  intros Hpos Hd Hwin Hroom s s'.
  assert (0 <= elapsed_time gaps)%Z as Hsum.
  { clear -Hpos. induction Hpos; cbn; [lia |].
    change (fold_right Z.add 0%Z l) with (elapsed_time l). lia. }
  assert (Es : s = {| now := t0 + elapsed_time gaps;
                      rateLimiter :=
                        {| remaining := rateLimitPerMinute config - Z.of_nat (length gaps);
                           limit := rateLimitPerMinute config;
                           resetAt := t0 + 60000 |};
                      trace := [] |}).
  { subst s. rewrite checks_pass; cbn; (done || lia). }
  split; [by rewrite Es |]. split; [by rewrite Es |]. split; [by rewrite Es |].
  intros Hfull. subst s'. rewrite Es. rewrite check_wait by (cbn; lia).
  cbn. split; [| split; [lia | done]].
  f_equal. f_equal. lia.
Qed.

(** A call that has to wait does not open a new window: it sleeps until
    [resetAt], leaves [resetAt] where it was and sets [remaining] to
    [limit - 1]. So, for a limit [L] of at least 1, the [L - 1] calls
    that come at once after the sleep pass, the call that comes [d]
    milliseconds later, however small [d] is, finds the window over,
    opens a new one and passes, and so do [L - 1] more calls behind it:
    [2 L - 1] calls pass without any timer within [d] milliseconds of
    the end of the sleep. *)
Theorem window_not_renewed_by_wait s d :
  (1 <= limit (rateLimiter s))%Z ->
  (now s <= resetAt (rateLimiter s))%Z ->
  (remaining (rateLimiter s) <= 0)%Z ->
  (0 < d)%Z ->
  let L := Z.to_nat (limit (rateLimiter s)) in
  let s1 := (checkRateLimit s).2 in
  let s2 := checks (repeat 0%Z (L - 1) ++ [d] ++ repeat 0%Z (L - 1)) s1 in
  (trace s1 = trace s ++ [Sleep (resetAt (rateLimiter s) - now s)]
   /\ now s1 = resetAt (rateLimiter s)
   /\ resetAt (rateLimiter s1) = resetAt (rateLimiter s)
   /\ remaining (rateLimiter s1) = limit (rateLimiter s) - 1)%Z
  /\ length (repeat 0%Z (L - 1) ++ [d] ++ repeat 0%Z (L - 1)) = (2 * L - 1)%nat
  /\ trace s2 = trace s1
  /\ now s2 = (resetAt (rateLimiter s) + d)%Z
  /\ resetAt (rateLimiter s2) = (resetAt (rateLimiter s) + d + 60000)%Z.
Proof.
  intros HL Hwin Hrem Hd L s1 s2.
  assert (Hzero : forall n, elapsed_time (repeat 0%Z n) = 0%Z).
  { induction n as [| n IH]; [done |]. cbn.
    change (fold_right Z.add 0%Z (repeat 0%Z n)) with (elapsed_time (repeat 0%Z n)).
    by rewrite IH. }
  assert (Hall : forall n, Forall (fun d => 0 <= d)%Z (repeat 0%Z n)).
  { intros n. apply Forall_forall. intros x Hx%list_elem_of_In%repeat_spec. lia. }
  assert (E1 : s1 = {| now := now s + Z.max 0 (resetAt (rateLimiter s) - now s);
                       rateLimiter := {| remaining := limit (rateLimiter s) - 1;
                                         limit := limit (rateLimiter s);
                                         resetAt := resetAt (rateLimiter s) |};
                       trace := trace s ++ [Sleep (resetAt (rateLimiter s) - now s)] |}).
  { subst s1. by rewrite check_wait. }
  split; [rewrite E1; cbn; repeat split; lia |].
  split; [rewrite !length_app, !repeat_length; cbn; lia |].
  subst s2. rewrite !checks_app.
  rewrite (checks_pass (repeat 0%Z (L - 1)) s1);
    [| apply Hall | rewrite Hzero, E1; cbn; lia
     | rewrite repeat_length, E1; cbn; lia].
  rewrite Hzero, repeat_length.
  cbn [checks fold_left].
  change (fold_left _ (repeat 0%Z (L - 1)) ?s0) with (checks (repeat 0%Z (L - 1)) s0).
  rewrite check_reset; [| rewrite E1; cbn; lia | rewrite E1; cbn; lia].
  rewrite checks_pass;
    [| apply Hall | rewrite Hzero, E1; cbn; lia
     | rewrite repeat_length, E1; cbn; lia].
  rewrite Hzero, E1. cbn. repeat split; lia.
Qed.

(** One rate-limit check, in a state whose window ends at most 60
    seconds from now: it sleeps at most once, for at most 60 seconds,
    and leaves such a state. *)
Lemma check_sleep_bounded s :
  (resetAt (rateLimiter s) <= now s + 60000)%Z ->
  exists t,
    trace (checkRateLimit s).2 = trace s ++ t
    /\ Forall (fun ms => 0 <= ms <= 60000)%Z (sleeps t)
    /\ (length (sleeps t) <= 1)%nat
    /\ (now s <= now (checkRateLimit s).2)%Z
    /\ (resetAt (rateLimiter (checkRateLimit s).2)
        <= now (checkRateLimit s).2 + 60000)%Z.
Proof.
  intros Hinv.
  unfold checkRateLimit, bind, Date_now, get_rateLimiter, set_rateLimiter, ret, sleep.
  cbn [fst snd now rateLimiter trace remaining limit resetAt].
  destruct (Z.ltb_spec (resetAt (rateLimiter s)) (now s)); cbn.
  - destruct (Z.leb_spec (limit (rateLimiter s)) 0); cbn.
    + eexists [_]. split; [reflexivity |]. cbn.
      repeat split; [| lia | lia | lia]. repeat constructor; lia.
    + exists []. rewrite app_nil_r. cbn. repeat split; [constructor | lia | lia | lia].
  - destruct (Z.leb_spec (remaining (rateLimiter s)) 0); cbn.
    + eexists [_]. split; [reflexivity |]. cbn.
      repeat split; [| lia | lia | lia]. repeat constructor; lia.
    + exists []. rewrite app_nil_r. cbn. repeat split; [constructor | lia | lia | lia].
Qed.

(** While the clock does not run backwards, no call is held by the rate
    limiter for more than 60 seconds: every timer that the rate-limit
    checks of a client start, whatever its limit and however the calls
    are spaced, lasts between 0 and 60000 milliseconds. *)
Theorem rate_limit_wait_bounded config t0 (gaps : list Z) :
  Forall (fun d => 0 <= d)%Z gaps ->
  Forall (fun ms => 0 <= ms <= 60000)%Z
    (sleeps (trace (checks gaps (constructor config t0))))
  /\ (length (sleeps (trace (checks gaps (constructor config t0)))) <= length gaps)%nat.
Proof.
  intros Hpos.
  assert (Hgen : forall s,
    (resetAt (rateLimiter s) <= now s + 60000)%Z ->
    exists t,
      trace (checks gaps s) = trace s ++ t
      /\ Forall (fun ms => 0 <= ms <= 60000)%Z (sleeps t)
      /\ (length (sleeps t) <= length gaps)%nat).
  { induction Hpos as [| d gaps Hd Hpos IH]; intros s Hinv.
    - exists []. cbn. rewrite app_nil_r. repeat split; [constructor | lia].
    - cbn [checks fold_left].
      change (fold_left _ gaps ?s0) with (checks gaps s0).
      destruct (check_sleep_bounded (advance d s)) as (t1 & Ht1 & Hb1 & Hl1 & _ & Hinv1).
      { cbn. lia. }
      destruct (IH _ Hinv1) as (t2 & Ht2 & Hb2 & Hl2).
      exists (t1 ++ t2). rewrite Ht2, Ht1. cbn [trace advance].
      rewrite app_assoc, sleeps_app, length_app. repeat split.
      + by apply Forall_app.
      + cbn [length]. lia. }
  destruct (Hgen (constructor config t0)) as (t & Ht & Hb & Hl); [cbn; lia |].
  rewrite Ht. cbn [trace constructor app]. by split.
Qed.

(** ** The convenience methods *)

Lemma request_sends_init env config net options s :
  sends_only (request env config net options) s (requestInit config options).
Proof.
  unfold sends_only, request.
  destruct (buildUrl _ _ _) as [e | url].
  { exists []. split; [by rewrite app_nil_r | intros u i Hin; by inversion Hin]. }
  destruct (validateUrl env url); cbn [negb].
  2:{ exists []. split; [by rewrite app_nil_r | intros u i Hin; by inversion Hin]. }
  unfold bind.
  pose proof (checkRateLimit_returns s) as Hc.
  destruct (checkRateLimit_trace s) as (t1 & Ht1 & Hr1).
  destruct (checkRateLimit s) as [[e | []] s1]; cbn in Hc, Ht1; [discriminate |].
  destruct (retry_loop_sends config net url options
              (Z.to_nat (retryAttempts config)) 0 None s1) as (t2 & Ht2 & Hall).
  exists (t1 ++ t2). split; [by rewrite Ht2, Ht1, app_assoc |].
  intros u i Hin. rewrite requests_app, Hr1 in Hin. cbn in Hin.
  unfold requests in Hin. apply list_elem_of_omap in Hin as (ev & Hev & Hsome).
  rewrite Forall_forall in Hall. apply Hall in Hev.
  destruct ev as [ms | u' i']; [discriminate |].
  injection Hsome as -> ->. by destruct Hev as [_ ->].
Qed.

Lemma requestInit_bare config m path body query :
  requestInit config (HttpRequestOptions.mk m path None body query None)
  = bare_init config m (if truthy body then body else None).
Proof.
  unfold requestInit, bare_init, requestHeaders, spread. cbn.
  by rewrite (left_id_L ∅ (∪)).
Qed.

Lemma get_sends_bare env config net path query s :
  sends_only (Methods.get env config net path query) s (bare_init config GET None).
Proof.
  unfold Methods.get.
  change (bare_init config GET None)
    with (bare_init config GET (if truthy (@None Json) then None else None)).
  rewrite <- (requestInit_bare config GET path None query). apply request_sends_init.
Qed.

(** The five convenience methods pass no headers and no timeout of
    their own: every request they send carries the method they are named
    after, the two default headers and the auth header of the
    configuration and nothing else, and the timeout of the configuration.
    [get] and [delete] send no body; [post], [put] and [patch] send the
    body they are given unless it is falsy ([null], [false], [0], the
    empty string), which is not sent at all. *)
Theorem convenience_methods_requests env config net path query body s :
  sends_only (Methods.get env config net path query) s (bare_init config GET None)
  /\ sends_only (Methods.delete env config net path) s (bare_init config DELETE None)
  /\ sends_only (Methods.post env config net path body) s
       (bare_init config POST (if truthy body then body else None))
  /\ sends_only (Methods.put env config net path body) s
       (bare_init config PUT (if truthy body then body else None))
  /\ sends_only (Methods.patch env config net path body) s
       (bare_init config PATCH (if truthy body then body else None))
  /\ (forall k, k <> "Content-Type" -> k <> "User-Agent" ->
                k <> "Authorization" -> k <> "X-API-Key" ->
                init_headers (bare_init config GET None) !! k = None).
Proof.
  repeat split.
  - apply get_sends_bare.
  - unfold Methods.delete.
    change (bare_init config DELETE None)
      with (bare_init config DELETE (if truthy (@None Json) then None else None)).
    rewrite <- (requestInit_bare config DELETE path None None). apply request_sends_init.
  - unfold Methods.post.
    rewrite <- (requestInit_bare config POST path body None). apply request_sends_init.
  - unfold Methods.put.
    rewrite <- (requestInit_bare config PUT path body None). apply request_sends_init.
  - unfold Methods.patch.
    rewrite <- (requestInit_bare config PATCH path body None). apply request_sends_init.
  - intros k H1 H2 H3 H4. cbn [bare_init init_headers]. unfold spread.
    rewrite lookup_union, getAuthHeaders_keys by done.
    rewrite lookup_insert_ne, lookup_singleton_ne by done. reflexivity.
Qed.

(** ** Credentials, from the environment to the request *)

(** A configuration that [validateCredentials] finds valid for a list
    of keys that holds [accessToken] sends [Authorization: Bearer] with
    that token, whatever API key it has besides; one found valid for a
    list that holds [apiKey] sends an auth header too, the bearer token
    when it has one and [X-API-Key] with the key otherwise. *)
Theorem valid_credentials_are_sent config (required : list CredentialKey) :
  CredentialCheck.valid (validateCredentials config required) = true ->
  (KeyAccessToken ∈ required ->
   exists tok,
     accessToken (credentials config) = Some tok /\ tok <> ""
     /\ getAuthHeaders config = {[ "Authorization" := "Bearer " +:+ tok ]})
  /\ (KeyApiKey ∈ required ->
      exists k,
        apiKey (credentials config) = Some k /\ k <> ""
        /\ (getAuthHeaders config = {[ "X-API-Key" := k ]}
            \/ exists tok, tok <> ""
                 /\ getAuthHeaders config = {[ "Authorization" := "Bearer " +:+ tok ]})).
Proof.
  intros Hvalid.
  pose proof (proj1 (validateCredentials_valid config required) Hvalid) as Hall.
  clear Hvalid. rename Hall into Hvalid. split.
  - intros Hin. destruct (Hvalid _ Hin) as (tok & Ht & Hne). cbn in Ht.
    exists tok. repeat split; [done | done |]. by apply getAuthHeaders_token.
  - intros Hin. destruct (Hvalid _ Hin) as (k & Hk & Hne). cbn in Hk.
    exists k. repeat split; [done | done |].
    destruct (truthy (accessToken (credentials config))) eqn:Ht.
    + right. apply truthy_option_string in Ht as (tok & Ht & Hne').
      exists tok. split; [done |]. by apply getAuthHeaders_token.
    + left. by apply getAuthHeaders_key.
Qed.

(** The token of the environment reaches the request: when
    [<PREFIX>_ACCESS_TOKEN] is set to a non-empty string, the client of a
    configuration made by [createPlatformConfig] with that prefix sends
    [Authorization: Bearer <token>] and no [X-API-Key] in every request
    of its convenience methods, also when [<PREFIX>_API_KEY] is set. *)
Theorem environment_token_is_sent env name baseUrl envPrefix options tok :
  env !! (envPrefix +:+ "_ACCESS_TOKEN") = Some tok ->
  tok <> "" ->
  let config := createPlatformConfig env name baseUrl envPrefix options in
  getAuthHeaders config = {[ "Authorization" := "Bearer " +:+ tok ]}
  /\ (forall m body,
        init_headers (bare_init config m body) !! "Authorization"
        = Some ("Bearer " +:+ tok)
        /\ init_headers (bare_init config m body) !! "X-API-Key" = None)
  /\ (forall net path query s,
        sends_only (Methods.get env config net path query) s
          (bare_init config GET None)).
Proof.
  intros Henv Hne config.
  assert (Ha : getAuthHeaders config = {[ "Authorization" := "Bearer " +:+ tok ]}).
  { apply getAuthHeaders_token; [| done]. subst config. cbn. exact Henv. }
  split; [exact Ha |]. split.
  - intros m body. cbn [bare_init init_headers]. unfold spread.
    rewrite !lookup_union, Ha. split; [by rewrite lookup_singleton_eq |].
    rewrite lookup_singleton_ne by done.
    rewrite lookup_insert_ne, lookup_singleton_ne by done. reflexivity.
  - intros net path query s. apply get_sends_bare.
Qed.

(** ** URL validation and URL building, further *)

Lemma bracketed_not_blocked (h : string) :
  ~ (String "[" h ∈ blockedHosts).
Proof.
  unfold blockedHosts. intros Hin.
  repeat (apply elem_of_cons in Hin as [Hin | Hin]; [discriminate Hin |]).
  by apply elem_of_nil in Hin.
Qed.

(** A host that is an IPv6 address is never blocked: its [hostname] is
    the address between brackets, which is none of the four blocked
    names. Such a URL is accepted in every mode but for the HTTPS rule
    of production; the loopback address [::1] is no exception. *)
Theorem validateUrl_ipv6_never_blocked env url parsed pieces :
  URL.new url None = Some parsed ->
  URL.host parsed = Some (Host.IPv6 pieces) ->
  (URL.hostname parsed ∉ blockedHosts)
  /\ (URL.protocol parsed = "https:" -> validateUrl env url = true)
  /\ (NODE_ENV env <> Some "production" -> validateUrl env url = true).
Proof.
  intros Hu Hh.
  assert (Hnot : URL.hostname parsed ∉ blockedHosts).
  { unfold URL.hostname. rewrite Hh. cbn [URL.host_serialize].
    apply bracketed_not_blocked. }
  split; [exact Hnot |]. split.
  - intros Hp. unfold validateUrl. rewrite Hu, Hp.
    change (negb ("https:" =? "https:")%string) with false.
    rewrite andb_false_r. by rewrite bool_decide_eq_false_2.
  - intros Hp. by apply (validateUrl_development env url parsed).
Qed.

(** A plain path against a base of a special scheme, with the path of
    the result spelled out: it is read from the path alone. *)
Lemma parse_plain_path_segments p base :
  plain_path p = true ->
  URL.is_special (URL.scheme base) = true ->
  (exists bp, URL.path base = URL.Segments bp) ->
  URL.basic_parse p (Some base)
  = Some (URL.mk (URL.scheme base) (URL.username base) (URL.password base)
            (URL.host base) (URL.port base)
            (URL.Segments (URL.path_state true (Str.drop 1 (URL.trim p)) "" []).1)
            None None []).
Proof.
  intros Hp Hsp [bp Hbp].
  destruct (URLFacts.trim_plain p Hp) as (r & Htrim & Hq & Hhead).
  unfold URL.basic_parse. rewrite Htrim.
  change (URL.split_scheme (String "/" r)) with (@None (string * string)).
  cbn iota. rewrite Hbp, (URLFacts.special_not_file _ Hsp).
  unfold URL.relative. rewrite Hsp.
  change (URL.is_slash true "/") with true. cbn iota. cbn [Str.drop].
  pose proof (URLFacts.path_state_reads_all true r Hq "" []) as Htail.
  destruct (URL.path_state true r "" []) as [segs tail]. cbn in Htail. subst tail.
  cbn [fst].
  destruct r as [| c2 r2]; [reflexivity |].
  rewrite Hhead. cbn [andb].
  assert (Ascii.eqb c2 "/" = false) as ->.
  { unfold URL.is_slash in Hhead. by apply orb_false_elim in Hhead as [? _]. }
  reflexivity.
Qed.

(** The path of the base URL plays no part for a path that starts with
    a slash: two configurations whose base URLs have the same special
    scheme, credentials, host and port give the same URL for every plain
    path, whatever the paths, queries and fragments of the two bases. So
    a base such as [https://host/v1] loses its [/v1]. *)
Theorem buildUrl_ignores_base_path config1 config2 base1 base2 p q :
  URL.new (baseUrl config1) None = Some base1 ->
  URL.new (baseUrl config2) None = Some base2 ->
  URL.is_special (URL.scheme base1) = true ->
  URL.scheme base1 = URL.scheme base2 ->
  URL.username base1 = URL.username base2 ->
  URL.password base1 = URL.password base2 ->
  URL.host base1 = URL.host base2 ->
  URL.port base1 = URL.port base2 ->
  plain_path p = true ->
  buildUrl config1 p q = buildUrl config2 p q
  /\ exists u,
       buildUrl_object config1 p q = inr u
       /\ URL.path u
          = URL.Segments (URL.path_state true (Str.drop 1 (URL.trim p)) "" []).1.
Proof.
  intros H1 H2 Hsp Hs Hu Hpw Hh Hpo Hp.
  assert (Hsp2 : URL.is_special (URL.scheme base2) = true) by congruence.
  pose proof (parse_plain_path_segments p base1 Hp Hsp
                (URLFacts.special_segments _ _ H1 Hsp)) as P1.
  pose proof (parse_plain_path_segments p base2 Hp Hsp2
                (URLFacts.special_segments _ _ H2 Hsp2)) as P2.
  rewrite <- Hs, <- Hu, <- Hpw, <- Hh, <- Hpo in P2.
  unfold buildUrl, buildUrl_object, URL.new. unfold URL.new in H1, H2.
  rewrite H1, H2. cbn [mbind option_bind]. rewrite P1, P2.
  split; [reflexivity |]. eexists. split; [reflexivity |].
  destruct q as [entries |]; [| reflexivity].
  assert (Hgen : forall l u, URL.path
      (fold_left (fun u kv => URL.searchParams_append u kv.1 kv.2) l u) = URL.path u).
  { induction l as [| kv l IH]; intros u; [done |]. cbn [fold_left]. by rewrite IH. }
  by rewrite Hgen.
Qed.

(** The pairs of the query map are appended: the parameters that the
    path brings stay, in front and in their order, a name that occurs
    twice occurs twice in the result, and nothing but the query changes.
    When the map is not empty the whole query is written anew, in the
    form-urlencoded format, and decodes to the parameters of the path
    followed by the pairs of the map; when it is empty or absent the
    query is left as the path wrote it. *)
Theorem buildUrl_appends_query config p (q : list (string * string)) u0 :
  URL.new p (Some (baseUrl config)) = Some u0 ->
  exists u,
    buildUrl_object config p (Some q) = inr u
    /\ buildUrl_object config p None = inr u0
    /\ URL.searchParams u = URL.searchParams u0 ++ q
    /\ URL.origin u = URL.origin u0
    /\ URL.fragment u = URL.fragment u0
    /\ (q = [] -> URL.query u = URL.query u0)
    /\ (q <> [] ->
        URL.query u = Some (UrlEncoded.serialize (URL.searchParams u0 ++ q))
        /\ UrlEncoded.parse (default "" (URL.query u)) = URL.searchParams u0 ++ q).
Proof.
  intros Hu. unfold buildUrl_object. rewrite Hu.
  destruct (URLFacts.append_entries q u0) as (Hs & Hh & Hp & Hf & Hl & Hq).
  eexists. split; [reflexivity |]. split; [reflexivity |].
  split; [exact Hl |]. split; [by apply URLFacts.origin_same |].
  split; [exact Hf |]. split.
  - intros ->. exact Hq.
  - intros Hne. rewrite Hq. destruct q as [| kv q]; [done |].
    cbn [Str.is_empty_list default from_option]. split; [reflexivity |].
    apply UrlEncodedFacts.parse_serialize.
Qed.

(** The empty path names the base URL itself: with no query map,
    [buildUrl] returns the base URL in its normalized form, without its
    fragment. *)
Theorem buildUrl_empty_path config base :
  URL.new (baseUrl config) None = Some base ->
  URL.is_special (URL.scheme base) = true ->
  buildUrl config "" None
  = inr (URL.toString
           (URL.mk (URL.scheme base) (URL.username base) (URL.password base)
              (URL.host base) (URL.port base) (URL.path base) (URL.query base)
              None (URL.params_of (URL.query base))))
  /\ (URL.fragment base = None -> buildUrl config "" None = inr (URL.toString base)).
Proof.
  intros Hb Hsp.
  destruct (URLFacts.special_segments _ _ Hb Hsp) as [bp Hbp].
  assert (E : buildUrl config "" None
              = inr (URL.toString
                       (URL.mk (URL.scheme base) (URL.username base) (URL.password base)
                          (URL.host base) (URL.port base) (URL.path base)
                          (URL.query base) None (URL.params_of (URL.query base))))).
  { match goal with |- _ = ?r => set (R := r) end.
    unfold buildUrl, buildUrl_object, URL.new. unfold URL.new in Hb. rewrite Hb.
    cbn [mbind option_bind]. unfold URL.basic_parse.
    change (URL.split_scheme (URL.trim "")) with (@None (string * string)).
    cbn iota. rewrite Hbp, (URLFacts.special_not_file _ Hsp).
    change (URL.trim "") with "". unfold URL.relative. subst R. reflexivity. }
  split; [exact E |]. intros Hf. rewrite E. f_equal.
  unfold URL.toString. cbn [URL.scheme URL.host URL.path URL.query URL.fragment
    URL.port]. rewrite Hf. unfold URL.credentials_serialize. reflexivity.
Qed.

(** ** docker: [ping] *)

Lemma retry_loop_no_success config net url options todo :
  (forall i, attempt_success (net i) = None) ->
  forall attempt last s,
    exists e, (retry_loop config net todo attempt last url options s).1 = inl e.
Proof.
  intros Hnone.
  destruct (valid_delay (init_timeout (requestInit config options))) eqn:Hd.
  2:{ intros attempt last s. rewrite retry_loop_refusals by exact Hd. cbn. eauto. }
  induction todo as [| todo IH]; intros attempt last s.
  - cbn. eauto.
  - destruct (attempt_outcome (net attempt)) as [(r & d & Hs) | (_ & e & He)].
    + by rewrite Hnone in Hs.
    + rewrite (retry_loop_failure _ _ _ _ _ _ _ e _ Hd) by done. apply IH.
Qed.

Lemma request_no_success env config net options s :
  (forall i, attempt_success (net i) = None) ->
  exists e, (request env config net options s).1 = inl e.
Proof.
  intros Hnone. unfold request.
  destruct (buildUrl _ _ _) as [e | url]; [cbn; eauto |].
  destruct (validateUrl env url); cbn [negb]; [| cbn; eauto].
  unfold bind. pose proof (checkRateLimit_returns s) as Hc.
  destruct (checkRateLimit s) as [[e | []] s1]; cbn in Hc; [discriminate |].
  by apply retry_loop_no_success.
Qed.

(** [ping] never throws. It answers [true] exactly when the [GET] of
    [/_ping] returns a response, that is when some attempt gets a body
    that decodes as JSON; against a daemon whose answers do not decode,
    such as a plain-text [OK], it answers [false], after the attempts and
    backoffs of the failed call. *)
Theorem ping_answers env config net s :
  exists b,
    DockerClient.ping env config net s
    = (inr b, (Methods.get env config net "/_ping" None s).2)
    /\ (b = true <-> exists r, (Methods.get env config net "/_ping" None s).1 = inr r)
    /\ ((forall i, attempt_success (net i) = None) -> b = false).
Proof.
  unfold DockerClient.ping, try_catch, bind, ret.
  destruct (Methods.get env config net "/_ping" None s) as [[e | r] s'] eqn:Hget.
  - exists false. cbn. split; [reflexivity |]. split.
    + split; [discriminate |]. intros [r Hr]. discriminate Hr.
    + reflexivity.
  - exists true. cbn. split; [reflexivity |]. split.
    { split; [eauto | reflexivity]. }
    intros Hnone.
    destruct (request_no_success env config net
                (HttpRequestOptions.mk GET "/_ping" None None None None) s Hnone)
      as [e He].
    unfold Methods.get in Hget. rewrite Hget in He. discriminate He.
Qed.

(** In production, with [DOCKER_HOST] unset or empty, the client talks
    to [http://localhost:2375], which URL validation refuses: [ping]
    answers [false] whatever the daemon does, without any request and
    without touching the rate limiter. *)
Theorem ping_refused_in_production env net s :
  NODE_ENV env = Some "production" ->
  truthy (env !! "DOCKER_HOST") = false ->
  baseUrl (DockerClient.config env) = "http://localhost:2375"
  /\ DockerClient.ping env (DockerClient.config env) net s = (inr false, s).
Proof.
  intros Hp Hhost.
  assert (Hbase : baseUrl (DockerClient.config env) = "http://localhost:2375").
  { cbn. unfold or_else. destruct (env !! "DOCKER_HOST") as [h |]; [| done].
    cbn in Hhost. by rewrite Hhost. }
  split; [exact Hbase |].
  assert (Hb : buildUrl (DockerClient.config env) "/_ping" None
               = inr "http://localhost:2375/_ping").
  { unfold buildUrl, buildUrl_object. rewrite Hbase. reflexivity. }
  assert (Hv : validateUrl env "http://localhost:2375/_ping" = false).
  { unfold validateUrl.
    change (URL.new "http://localhost:2375/_ping" None)
      with (Some (URL.mk "http" "" "" (Some (Host.Domain "localhost")) (Some 2375%N)
                    (URL.Segments ["_ping"]) None None [])).
    by rewrite (production_true _ Hp). }
  unfold DockerClient.ping, Methods.get, try_catch, bind, request.
  cbn [HttpRequestOptions.path HttpRequestOptions.query].
  by rewrite Hb, Hv.
Qed.

(** ** github: [toCamelCase] *)

Module GitHubFacts.

Import GitHubClient.

Lemma to_upper_not_lower l : is_lower l = true -> is_lower (to_upper l) = false.
Proof. by destruct l as [[] [] [] [] [] [] [] []]. Qed.

Lemma to_upper_not_underscore l :
  is_lower l = true -> Ascii.eqb (to_upper l) "_" = false.
Proof. by destruct l as [[] [] [] [] [] [] [] []]. Qed.

Lemma camelKey_cons c l r :
  camelKey (String c (String l r))
  = if Ascii.eqb c "_" && is_lower l
    then String (to_upper l) (camelKey r)
    else String c (camelKey (String l r)).
Proof. reflexivity. Qed.

(** The first character of a converted key is the first character of
    the key, or is not a lower-case letter. *)
Lemma camelKey_head l r :
  exists y r', camelKey (String l r) = String y r' /\ (y = l \/ is_lower y = false).
Proof.
  destruct r as [| l' r']; [cbn; eauto |].
  rewrite camelKey_cons.
  destruct (Ascii.eqb l "_" && is_lower l') eqn:E; [| eauto].
  apply andb_true_iff in E as [_ Hl]. eexists _, _. split; [reflexivity |].
  right. by apply to_upper_not_lower.
Qed.

Lemma camelKey_idempotent_upto n : forall key,
  (String.length key <= n)%nat -> camelKey (camelKey key) = camelKey key.
Proof.
  induction n as [| n IH]; intros key Hlen.
  - destruct key; [done | cbn in Hlen; lia].
  - destruct key as [| c [| l r]]; [done | done |].
    cbn [String.length] in Hlen. rewrite camelKey_cons.
    destruct (Ascii.eqb c "_" && is_lower l) eqn:E.
    + apply andb_true_iff in E as [_ Hl].
      destruct (camelKey r) as [| x X] eqn:EX; [done |].
      rewrite camelKey_cons, (to_upper_not_underscore _ Hl). cbn [andb].
      rewrite <- EX, IH by lia. reflexivity.
    + destruct (camelKey_head l r) as (y & Y & EY & Hy). rewrite EY.
      rewrite camelKey_cons.
      assert (Ascii.eqb c "_" && is_lower y = false) as ->.
      { destruct (Ascii.eqb c "_"); [| done]. cbn in E |- *.
        destruct Hy as [-> | Hy]; done. }
      rewrite <- EY, IH by (cbn; lia). reflexivity.
Qed.

(** The conversion of keys is idempotent, leaves a key without
    underscore as it is, and never makes a key longer. No key converts
    to [__proto__], the one name whose assignment would not make a field
    of the fresh object. *)
Theorem camelKey_idempotent key :
  camelKey (camelKey key) = camelKey key
  /\ (Str.existsb (Ascii.eqb "_") key = false -> camelKey key = key)
  /\ (String.length (camelKey key) <= String.length key)%nat
  /\ camelKey key <> "__proto__".
Proof.
  assert (Hidem : camelKey (camelKey key) = camelKey key)
    by (by apply (camelKey_idempotent_upto (String.length key))).
  split; [exact Hidem |].
  split; [| split; [| intros H; rewrite H in Hidem; vm_compute in Hidem;
                      discriminate]].
  - clear Hidem. induction key as [| c r IH]; [done |]. cbn [Str.existsb].
    intros [Hc Hr]%orb_false_elim. destruct r as [| l r']; [done |].
    rewrite camelKey_cons, Ascii.eqb_sym, Hc. cbn [andb]. by rewrite (IH Hr).
  - clear Hidem.
    assert (Hgen : forall n key, (String.length key <= n)%nat ->
              (String.length (camelKey key) <= String.length key)%nat).
    { induction n as [| n IH]; intros k Hlen.
      - destruct k; [done | cbn in Hlen; lia].
      - destruct k as [| c [| l r]]; [done | done |].
        cbn [String.length] in Hlen. rewrite camelKey_cons.
        destruct (Ascii.eqb c "_" && is_lower l).
        + cbn [String.length]. specialize (IH r). lia.
        + cbn [String.length]. specialize (IH (String l r)).
          cbn [String.length] in IH. lia. }
    by apply (Hgen (String.length key)).
Qed.

Lemma toCamelCase_fold (entries : list (string * Json)) :
  forall (acc : gmap string Json) j,
  fold_left (fun result kv => <[camelKey kv.1 := kv.2]> result) entries acc !! j
  = match last (List.filter (fun kv => bool_decide (camelKey kv.1 = j)) entries) with
    | Some kv => Some kv.2
    | None => acc !! j
    end.
Proof.
  induction entries as [| kv entries IH]; intros acc j; [done |].
  cbn [fold_left List.filter]. rewrite IH.
  destruct (bool_decide_reflect (camelKey kv.1 = j)) as [Heq | Hne].
  - destruct (List.filter _ entries) as [| x F] eqn:EF.
    + cbn. by rewrite Heq, lookup_insert_eq.
    + rewrite last_cons_cons. destruct (last (x :: F)) eqn:EL; [done |].
      by apply last_None in EL.
  - destruct (last (List.filter _ entries)); [done |].
    by rewrite lookup_insert_ne.
Qed.

Lemma filter_unique {A B} `{EqDecision B} (f : A -> B) (l : list A) x :
  NoDup (List.map f l) -> x ∈ l ->
  List.filter (fun y => bool_decide (f y = f x)) l = [x].
Proof.
  induction l as [| y l IH]; intros Hnd Hin; [by apply elem_of_nil in Hin |].
  cbn [List.map] in Hnd. apply NoDup_cons in Hnd as [Hnotin Hnd].
  cbn [List.filter].
  apply elem_of_cons in Hin as [-> | Hin].
  - rewrite bool_decide_eq_true_2 by done. f_equal.
    clear IH Hnd. induction l as [| z l IH]; [done |].
    cbn [List.map] in Hnotin. apply not_elem_of_cons in Hnotin as [Hne Hnotin].
    cbn [List.filter]. rewrite bool_decide_eq_false_2 by congruence. by apply IH.
  - rewrite bool_decide_eq_false_2; [by apply IH |].
    intros Heq. apply Hnotin. rewrite Heq.
    apply list_elem_of_In, in_map, list_elem_of_In, Hin.
Qed.

(** A field of the converted object holds the value of the last entry
    whose converted key is its name, as it is, and there is no other
    field: two keys with the same conversion, such as [a_b] and [aB],
    leave one field, with the value of the later one. When the
    conversions of the keys are all different, every entry is found under
    its converted key. *)
Theorem toCamelCase_lookup (entries : list (string * Json)) :
  (forall j,
      toCamelCase entries !! j
      = (fun kv => kv.2)
          <$> last (List.filter (fun kv => bool_decide (camelKey kv.1 = j)) entries))
  /\ (NoDup (List.map (fun kv => camelKey kv.1) entries) ->
      forall k v, (k, v) ∈ entries -> toCamelCase entries !! camelKey k = Some v).
Proof.
  assert (Hlook : forall j,
      toCamelCase entries !! j
      = (fun kv => kv.2)
          <$> last (List.filter (fun kv => bool_decide (camelKey kv.1 = j)) entries)).
  { intros j. unfold toCamelCase. rewrite toCamelCase_fold.
    by destruct (last _). }
  split; [exact Hlook |].
  intros Hnd k v Hin. rewrite Hlook.
  by rewrite (filter_unique (fun kv : string * Json => camelKey kv.1) entries (k, v)).
Qed.

End GitHubFacts.

(** ** platforms/index.ts: the registry *)

Module RegistryFacts.

Import Registry.

Ltac each_entry H :=
  repeat (apply elem_of_cons in H as [-> | H]); [.. | by apply elem_of_nil in H].

(** The names of the registry differ, also when case is ignored: each
    entry is found under its name, in whatever case the name is
    written. *)
Theorem getPlatformByName_finds p name' :
  p ∈ PLATFORM_REGISTRY ->
  Str.lower name' = Str.lower (name p) ->
  getPlatformByName name' = Some p
  /\ getRequiredEnvVars name' = requiredEnvVars p.
Proof.
  intros Hin Hname. unfold getRequiredEnvVars, getPlatformByName. rewrite Hname.
  each_entry Hin; by vm_compute.
Qed.

Lemma isPlatformConfigured_entry env p :
  p ∈ PLATFORM_REGISTRY ->
  isPlatformConfigured env (name p)
  = forallb (fun envVar => truthy (env !! envVar)) (requiredEnvVars p).
Proof.
  intros Hin. unfold isPlatformConfigured, getPlatformByName.
  assert (List.find (fun q => String.eqb (Str.lower (name q)) (Str.lower (name p)))
            PLATFORM_REGISTRY = Some p) as ->; [| done].
  each_entry Hin; by vm_compute.
Qed.

(** A platform of the registry is configured exactly when each of its
    required variables is set to a non-empty string, so a platform that
    requires none is always configured; the configured platforms and the
    unconfigured ones split the registry. *)
Theorem isPlatformConfigured_required env :
  (forall p, p ∈ PLATFORM_REGISTRY ->
     (isPlatformConfigured env (name p) = true
      <-> forall v, v ∈ requiredEnvVars p -> exists x, env !! v = Some x /\ x <> ""))
  /\ (forall p, p ∈ PLATFORM_REGISTRY -> requiredEnvVars p = [] ->
                p ∈ getConfiguredPlatforms env)
  /\ (forall p, p ∈ PLATFORM_REGISTRY ->
                (p ∈ getConfiguredPlatforms env <-> p ∉ getUnconfiguredPlatforms env))
  /\ getConfiguredPlatforms env ++ getUnconfiguredPlatforms env ≡ₚ PLATFORM_REGISTRY.
Proof.
  assert (H1 : forall p, p ∈ PLATFORM_REGISTRY ->
     (isPlatformConfigured env (name p) = true
      <-> forall v, v ∈ requiredEnvVars p -> exists x, env !! v = Some x /\ x <> "")).
  { intros p Hin. rewrite (isPlatformConfigured_entry env p Hin), forallb_forall.
    split; intros H v Hv.
    - apply truthy_option_string, H. by apply list_elem_of_In.
    - apply truthy_option_string, H. by apply list_elem_of_In. }
  split; [exact H1 |]. split; [| split].
  - intros p Hin Hreq. unfold getConfiguredPlatforms.
    apply list_elem_of_In, filter_In. split; [by apply list_elem_of_In |].
    apply H1; [done |]. rewrite Hreq. intros v Hv. by apply elem_of_nil in Hv.
  - intros p Hin. unfold getConfiguredPlatforms, getUnconfiguredPlatforms.
    rewrite !list_elem_of_In, !filter_In, <- !list_elem_of_In.
    destruct (isPlatformConfigured env (name p)); cbn; split.
    + intros _ [_ ?]. done.
    + done.
    + intros [_ ?]. done.
    + intros H. exfalso. apply H. done.
  - unfold getConfiguredPlatforms, getUnconfiguredPlatforms.
    generalize PLATFORM_REGISTRY. intros l.
    induction l as [| p l IH]; [done |]. cbn [List.filter].
    destruct (isPlatformConfigured env (name p)); cbn [negb app].
    + by rewrite IH.
    + rewrite <- Permutation_middle. by rewrite IH.
Qed.

(** The registry and the configurations agree on the names of the
    variables: for each platform of the registry that requires
    variables, once the registry finds it configured, a client whose
    configuration is made with the prefix of the entry has an auth
    header to send. *)
Theorem configured_platform_authenticates env p name' baseUrl options :
  p ∈ PLATFORM_REGISTRY ->
  requiredEnvVars p <> [] ->
  isPlatformConfigured env (name p) = true ->
  getAuthHeaders (createPlatformConfig env name' baseUrl (envPrefix p) options) <> ∅.
Proof.
  intros Hin Hreq Hconf. rewrite (isPlatformConfigured_entry env p Hin) in Hconf.
  unfold getAuthHeaders. cbn [createPlatformConfig credentials accessToken apiKey].
  unfold getEnvVar.
  each_entry Hin; try done; cbn [requiredEnvVars forallb envPrefix] in Hconf |- *;
    repeat match goal with
           | |- context [?a +:+ ?b] =>
               let v := eval vm_compute in (a +:+ b) in change (a +:+ b) with v
           end;
    repeat match goal with
           | H : _ && _ = true |- _ => apply andb_true_iff in H as [? ?]
           end;
    repeat match goal with
           | H : truthy ?x = true |- _ => rewrite H
           end;
    repeat match goal with
           | |- context [if truthy ?x then _ else _] => destruct (truthy x)
           end;
    apply map_non_empty_singleton.
Qed.

End RegistryFacts.

(** ** The further properties at work on the sample data *)

Lemma sanitizeConfigForLogging_hides_secrets_witness :
  sanitizeConfigForLogging (Sample.github 60)
  = sanitizeConfigForLogging Sample2.github_rotated
  /\ Sanitized.accessToken (Sanitized.creds (sanitizeConfigForLogging (Sample.github 60)))
     = Some "[REDACTED]"
  /\ Sanitized.apiSecret (Sanitized.creds (sanitizeConfigForLogging (Sample.github 60)))
     = None.
Proof.
  destruct (sanitizeConfigForLogging_hides_secrets (Sample.github 60)
              Sample2.github_rotated) as (Heq & _);
    try reflexivity.
  - intros []; reflexivity.
  - split; [exact Heq |]. split; reflexivity.
Defined.

Lemma valid_credentials_are_sent_witness :
  exists tok,
    accessToken (credentials (Sample.github 60)) = Some tok /\ tok <> ""
    /\ getAuthHeaders (Sample.github 60) = {[ "Authorization" := "Bearer " +:+ tok ]}.
Proof.
  destruct (valid_credentials_are_sent (Sample.github 60) [KeyAccessToken; KeyApiKey])
    as (Htok & _); [reflexivity |].
  apply Htok. apply list_elem_of_here.
Defined.

Lemma environment_token_is_sent_witness :
  getAuthHeaders (createPlatformConfig Sample2.github_env "GitHub"
                    "https://api.github.com" "GITHUB" Sample2.github_options)
  = {[ "Authorization" := "Bearer ghp_token" ]}.
Proof.
  destruct (environment_token_is_sent Sample2.github_env "GitHub"
              "https://api.github.com" "GITHUB" Sample2.github_options "ghp_token")
    as (H & _); [reflexivity | discriminate | exact H].
Defined.



Lemma request_without_attempts_witness :
  request Sample.development_env Sample2.github_no_attempt Sample.net_404
    Sample.get_user (constructor Sample2.github_no_attempt 0)
  = (inl (Error "Request failed after retries"),
     (checkRateLimit (constructor Sample2.github_no_attempt 0)).2)
  /\ remaining (rateLimiter (checkRateLimit (constructor Sample2.github_no_attempt 0)).2)
     = 59%Z.
Proof.
  destruct (request_without_attempts Sample.development_env Sample2.github_no_attempt
              Sample.net_404 Sample.get_user "https://api.github.com/user"
              (constructor Sample2.github_no_attempt 0))
    as (H & _); [vm_compute; reflexivity | vm_compute; reflexivity
                | vm_compute; discriminate |].
  split; [exact H | reflexivity].
Defined.

Lemma request_invalid_base_witness :
  request Sample.development_env Sample2.no_scheme Sample.net_404 Sample.get_user
    (constructor Sample2.no_scheme 0)
  = (inl (TypeError "Invalid URL"), constructor Sample2.no_scheme 0).
Proof.
  apply (request_invalid_base Sample.development_env Sample2.no_scheme Sample.net_404
           Sample.get_user (constructor Sample2.no_scheme 0)).
  reflexivity.
Defined.

Lemma rate_limit_first_window_witness :
  trace (checks [5; 5; 5]%Z (constructor (Sample.github 3) 0)) = []
  /\ remaining (rateLimiter (checks [5; 5; 5]%Z (constructor (Sample.github 3) 0)))
     = 0%Z
  /\ trace (checkRateLimit
              (advance 5 (checks [5; 5; 5]%Z (constructor (Sample.github 3) 0)))).2
     = [Sleep 59980].
Proof.
  destruct (rate_limit_first_window (Sample.github 3) 0 [5; 5; 5]%Z 5)
    as (Ht & _ & Hr & Hnext);
    [repeat constructor; lia | lia | vm_compute; discriminate
    | vm_compute; discriminate |].
  split; [exact Ht |]. split; [exact Hr |].
  destruct (Hnext eq_refl) as (Hs & _). exact Hs.
Defined.

Lemma window_not_renewed_by_wait_witness :
  trace (checkRateLimit Sample2.used_up).2 = [Sleep 59900]
  /\ trace (checks [0; 0; 1; 0; 0]%Z (checkRateLimit Sample2.used_up).2)
     = [Sleep 59900]
  /\ now (checks [0; 0; 1; 0; 0]%Z (checkRateLimit Sample2.used_up).2) = 60001%Z.
Proof.
  destruct (window_not_renewed_by_wait Sample2.used_up 1)
    as ((Hs & _) & _ & Ht & Hn & _);
    [vm_compute; discriminate | vm_compute; discriminate
    | vm_compute; discriminate | lia |].
  split; [exact Hs |]. split; [| exact Hn].
  exact (eq_trans Ht Hs).
Defined.

Lemma rate_limit_wait_bounded_witness :
  Forall (fun ms => 0 <= ms <= 60000)%Z
    (sleeps (trace (checks [10; 20; 30; 70000; 5]%Z
                      (constructor (Sample.github 2) 1000)))).
Proof.
  destruct (rate_limit_wait_bounded (Sample.github 2) 1000 [10; 20; 30; 70000; 5]%Z)
    as (H & _); [repeat constructor; lia | exact H].
Defined.

Lemma validateUrl_ipv6_never_blocked_witness :
  validateUrl Sample.production_env "https://[::1]:8443/admin" = true.
Proof.
  destruct (validateUrl_ipv6_never_blocked Sample.production_env
              "https://[::1]:8443/admin"
              (Sample2.parsed "https://[::1]:8443/admin") [0; 0; 0; 0; 0; 0; 0; 1]%N)
    as (_ & H & _); [reflexivity | reflexivity |].
  apply H. reflexivity.
Defined.

Lemma buildUrl_ignores_base_path_witness :
  buildUrl Sample2.notion "/users/me" None
  = buildUrl Sample2.notion_root "/users/me" None
  /\ buildUrl Sample2.notion "/users/me" None = inr "https://api.notion.com/users/me".
Proof.
  destruct (buildUrl_ignores_base_path Sample2.notion Sample2.notion_root
              (Sample2.parsed "https://api.notion.com/v1")
              (Sample2.parsed "https://api.notion.com") "/users/me" None)
    as (H & _); try reflexivity.
  split; [exact H | reflexivity].
Defined.

Lemma buildUrl_appends_query_witness :
  exists u,
    buildUrl_object (Sample.github 60) "/search?q=a&q=b" (Some [("q", "c d")]) = inr u
    /\ URL.searchParams u = [("q", "a"); ("q", "b"); ("q", "c d")]
    /\ URL.query u = Some "q=a&q=b&q=c+d".
Proof.
  destruct (buildUrl_appends_query (Sample.github 60) "/search?q=a&q=b" [("q", "c d")]
              (default (Sample2.parsed "") (URL.new "/search?q=a&q=b"
                                             (Some "https://api.github.com"))))
    as (u & Hu & _ & Hl & _ & _ & _ & Hq); [reflexivity |].
  exists u. split; [exact Hu |]. split; [exact Hl |].
  destruct Hq as [Hq _]; [discriminate | exact Hq].
Defined.

Lemma buildUrl_empty_path_witness :
  buildUrl Sample2.railway "" None = inr "https://backboard.railway.app/graphql/v2".
Proof.
  destruct (buildUrl_empty_path Sample2.railway
              (Sample2.parsed "https://backboard.railway.app/graphql/v2"))
    as (_ & H); [reflexivity | reflexivity |].
  exact (H eq_refl).
Defined.

Lemma ping_refused_in_production_witness :
  DockerClient.ping Sample.production_env (DockerClient.config Sample.production_env)
    Sample.net_404 (constructor (DockerClient.config Sample.production_env) 0)
  = (inr false, constructor (DockerClient.config Sample.production_env) 0).
Proof.
  destruct (ping_refused_in_production Sample.production_env Sample.net_404
              (constructor (DockerClient.config Sample.production_env) 0))
    as (_ & H); [reflexivity | reflexivity | exact H].
Defined.

Lemma getPlatformByName_finds_witness :
  Registry.name <$> Registry.getPlatformByName "GITHUB" = Some "GitHub"
  /\ Registry.getRequiredEnvVars "github" = ["GITHUB_ACCESS_TOKEN"].
Proof.
  destruct (RegistryFacts.getPlatformByName_finds
              (default (Registry.mk "" Registry.hardware "" "" [] [] None)
                 (Registry.PLATFORM_REGISTRY !! 4%nat)) "GITHUB")
    as (H & _); [vm_compute; apply list_elem_of_lookup; by exists 4%nat
                | reflexivity |].
  split; [by rewrite H | reflexivity].
Defined.

Lemma configured_platform_authenticates_witness :
  getAuthHeaders (createPlatformConfig Sample2.github_env "GitHub"
                    "https://api.github.com" "GITHUB" Sample2.github_options) <> ∅.
Proof.
  exact (RegistryFacts.configured_platform_authenticates Sample2.github_env
           (default (Registry.mk "" Registry.hardware "" "" [] [] None)
              (Registry.PLATFORM_REGISTRY !! 4%nat))
           "GitHub" "https://api.github.com" Sample2.github_options
           ltac:(apply list_elem_of_lookup; by exists 4%nat)
           ltac:(discriminate) ltac:(reflexivity)).
Defined.
